(** * reCAPTCHA v2 audio solver (solver.py): model

    The solver drives three external collaborators: a Selenium session,
    the local file system and a speech-recognition service.  Their answers
    are not under the solver's control, so the model runs the solver against
    an arbitrary scripted environment [Env]: every external call receives the
    answer the environment gives for the history of calls made so far, and is
    appended to that history.  The solver itself is a program in a
    state-and-exception monad over the part of the world the properties talk
    about: the session's frame context, the files on disk and the call
    history.

    Conventions: Python text is a byte string ([string]); [str.lower] is the
    ASCII case mapping; durations are rationals (seconds);
    [time.sleep(random.uniform(a, b))] is one event that records the range.
    Every exception of the model derives from [Exception]; interrupts
    ([KeyboardInterrupt] and the like) are outside the model. *)

From Stdlib Require Import ZArith QArith Ascii String List Lia.
From stdpp Require Import base tactics option list gmap sets strings pretty.

Local Open Scope string_scope.
Local Open Scope list_scope.
Local Open Scope Z_scope.

(** ** Exceptions *)

(** The exception classes the solver raises or handles by name; every
    other class ([NoSuchElementException], [OSError], ...) is
    [OtherException cls msg].  All of them derive from [Exception]. *)
Inductive exn : Type :=
| TimeoutException (msg : string)
| RecaptchaException (msg : string)
| UnknownValueError
| RequestError (msg : string)
| NoSuchElementException (msg : string)
| StaleElementReferenceException (msg : string)
| OtherException (cls msg : string).

(** [str(e)] *)
Definition exn_str (e : exn) : string :=
  match e with
  | TimeoutException m | RecaptchaException m | RequestError m
  | NoSuchElementException m | StaleElementReferenceException m
  | OtherException _ m => m
  | UnknownValueError => EmptyString
  end.

(** [isinstance(e, TimeoutException)] *)
Definition is_TimeoutException (e : exn) : bool :=
  match e with TimeoutException _ => true | _ => false end.

Inductive result (A : Type) : Type :=
| Ok (a : A)
| Err (e : exn).
Arguments Ok {A} a.
Arguments Err {A} e.

(** ** Data *)

Definition WebElement := N.
Definition bytes := list Byte.byte.
Definition AudioSource := N.
Definition AudioData := N.

(** [selenium.webdriver.common.by.By] (the strategies the solver uses) *)
Inductive By : Type := By_ID | By_XPATH | By_CLASS_NAME.

(** [expected_conditions] used with [WebDriverWait(...).until] *)
Inductive Condition : Type :=
| visibility_of_element_located
| presence_of_element_located.

(** Outcome of an operation that writes a file: on failure the file may or
    may not have been created already. *)
Inductive file_result : Type :=
| FileOk
| FileErr (e : exn) (created : bool).

(** One external call together with the answer it received. *)
Inductive Event : Type :=
| ESwitchFrame (el : WebElement) (r : result unit)
| ESwitchParentFrame
| ESwitchDefaultContent
| EWait (c : Condition) (by_ : By) (locator : string) (timeout : Z)
        (r : result WebElement)
| EFindElement (by_ : By) (locator : string) (r : result WebElement)
| EExecuteScript (script : string) (el : WebElement) (r : result unit)
| EGetAttribute (el : WebElement) (name : string) (r : result (option string))
| EClear (el : WebElement) (r : result unit)
| ESendKeys (el : WebElement) (keys : string) (r : result unit)
| EPrint (msg : string)
| ESleepUniform (lo hi : Q)
| EGetTempDir (dir : string)
| EUuid4 (hex : string)
| ERequestsGet (url : option string) (r : result bytes)
| EWriteFile (path : string) (content : bytes) (r : file_result)
| EMp3ToWav (mp3 wav : string) (r : file_result)
| EAudioFileOpen (path : string) (r : result AudioSource)
| EAdjustForAmbientNoise (src : AudioSource) (duration : Q) (r : result unit)
| ERecord (src : AudioSource) (r : result AudioData)
| ERecognizeGoogle (audio : AudioData) (language : string) (r : result string)
| ERemove (path : string) (r : result unit).

(** The environment: the answer to each external call, given the history. *)
Record Env : Type := {
  env_switch_frame : list Event -> WebElement -> result unit;
  env_wait : list Event -> Condition -> By -> string -> Z -> result WebElement;
  env_find_element : list Event -> By -> string -> result WebElement;
  env_execute_script : list Event -> string -> WebElement -> result unit;
  env_get_attribute :
    list Event -> WebElement -> string -> result (option string);
  env_clear : list Event -> WebElement -> result unit;
  env_send_keys : list Event -> WebElement -> string -> result unit;
  env_gettempdir : list Event -> string;
  env_uuid4_hex : list Event -> string;
  env_requests_get : list Event -> option string -> result bytes;
  env_write_file : list Event -> string -> bytes -> file_result;
  env_mp3_to_wav : list Event -> string -> string -> file_result;
  env_audio_file_open : list Event -> string -> result AudioSource;
  env_adjust_for_ambient_noise : list Event -> AudioSource -> Q -> result unit;
  env_record : list Event -> AudioSource -> result AudioData;
  env_recognize_google : list Event -> AudioData -> string -> result string;
  env_remove : list Event -> string -> result unit
}.

(** The modelled world.  [frames] is the frame context: the chain of
    iframes entered from the top-level document, innermost first; the
    top-level document is [[]].  [files] are the paths present on disk. *)
Record World : Type := mkWorld {
  frames : list WebElement;
  files : gset string
}.

Definition set_frames (fr : list WebElement) (w : World) : World :=
  mkWorld fr (files w).
Definition set_files (fs : gset string) (w : World) : World :=
  mkWorld (frames w) fs.

(** ** The monad *)

(** A computation reads the environment and the history of calls made
    before it started, transforms the world, and yields its outcome
    together with the events it added to the history. *)
Definition M (A : Type) : Type :=
  Env -> list Event -> World -> result A * World * list Event.

Definition run {A} (m : M A) (env : Env) (hist : list Event) (w : World)
    : result A * World * list Event :=
  m env hist w.

Definition ret {A} (a : A) : M A := fun _ _ w => (Ok a, w, []).
Definition raise {A} (e : exn) : M A := fun _ _ w => (Err e, w, []).
Definition bind {A B} (m : M A) (k : A -> M B) : M B :=
  fun env h w =>
    match m env h w with
    | (Ok a, w1, t1) =>
        match k a env (h ++ t1) w1 with
        | (r, w2, t2) => (r, w2, t1 ++ t2)
        end
    | (Err e, w1, t1) => (Err e, w1, t1)
    end.

#[global] Instance M_ret : MRet M := @ret.
#[global] Instance M_bind : MBind M := fun A B k m => bind m k.

(** [try: m] with the exception reified *)
Definition try {A} (m : M A) : M (result A) :=
  fun env h w =>
    match m env h w with
    | (r, w1, t1) => (Ok r, w1, t1)
    end.

(** [try: body / except ...: handler]; [handler] re-raises the
    exceptions its [except] clauses do not match. *)
Definition try_except {A} (body : M A) (handler : exn -> M A) : M A :=
  fun env h w =>
    match body env h w with
    | (Ok a, w1, t1) => (Ok a, w1, t1)
    | (Err e, w1, t1) =>
        match handler e env (h ++ t1) w1 with
        | (r, w2, t2) => (r, w2, t1 ++ t2)
        end
    end.

(** [try: body / finally: fin]: an exception of [fin] replaces the
    outcome of [body]. *)
Definition try_finally {A} (body : M A) (fin : M unit) : M A :=
  fun env h w =>
    match body env h w with
    | (r, w1, t1) =>
        match fin env (h ++ t1) w1 with
        | (Ok _, w2, t2) => (r, w2, t1 ++ t2)
        | (Err e, w2, t2) => (Err e, w2, t1 ++ t2)
        end
    end.

(** An external call: ask the environment, record the event, and on
    success apply the effect on the modelled world. *)
Definition call_result {A} (ask : Env -> list Event -> result A)
    (ev : result A -> Event) (eff : A -> World -> World) : M A :=
  fun env h w =>
    match ask env h with
    | Ok a => (Ok a, eff a w, [ev (Ok a)])
    | Err e => (Err e, w, [ev (Err e)])
    end.

Definition emit (ev : Event) : M unit := fun _ _ w => (Ok tt, w, [ev]).

(** ** External calls *)

(** [driver.switch_to.frame(el)] *)
Definition switch_to_frame (el : WebElement) : M unit :=
  call_result (fun env tr => env_switch_frame env tr el) (ESwitchFrame el)
    (fun _ w => set_frames (el :: frames w) w).

(** [driver.switch_to.parent_frame()]: at the top level it stays there.
    On a live session this command and [default_content] do not depend on
    the page, so they are taken to succeed. *)
Definition switch_to_parent_frame : M unit :=
  fun _ _ w => (Ok tt, set_frames (tail (frames w)) w, [ESwitchParentFrame]).

(** [driver.switch_to.default_content()] *)
Definition switch_to_default_content : M unit :=
  fun _ _ w => (Ok tt, set_frames [] w, [ESwitchDefaultContent]).

(** [WebDriverWait(driver, timeout).until(c((by, locator)))] *)
Definition wait_until (c : Condition) (by_ : By) (locator : string)
    (timeout : Z) : M WebElement :=
  call_result (fun env tr => env_wait env tr c by_ locator timeout)
    (EWait c by_ locator timeout) (fun _ w => w).

(** [driver.find_element(by, locator)] *)
Definition find_element (by_ : By) (locator : string) : M WebElement :=
  call_result (fun env tr => env_find_element env tr by_ locator)
    (EFindElement by_ locator) (fun _ w => w).

(** [driver.execute_script(script, el)] *)
Definition execute_script (script : string) (el : WebElement) : M unit :=
  call_result (fun env tr => env_execute_script env tr script el)
    (EExecuteScript script el) (fun _ w => w).

(** [el.get_attribute(name)] *)
Definition get_attribute (el : WebElement) (name : string)
    : M (option string) :=
  call_result (fun env tr => env_get_attribute env tr el name)
    (EGetAttribute el name) (fun _ w => w).

(** [el.clear()] *)
Definition clear (el : WebElement) : M unit :=
  call_result (fun env tr => env_clear env tr el) (EClear el) (fun _ w => w).

(** [el.send_keys(keys)] *)
Definition send_keys (el : WebElement) (keys : string) : M unit :=
  call_result (fun env tr => env_send_keys env tr el keys) (ESendKeys el keys)
    (fun _ w => w).

Definition print (msg : string) : M unit := emit (EPrint msg).

(** [time.sleep(random.uniform(lo, hi))] *)
Definition sleep_uniform (lo hi : Q) : M unit := emit (ESleepUniform lo hi).

(** [tempfile.gettempdir()] *)
Definition gettempdir : M string :=
  fun env h w => let d := env_gettempdir env h in (Ok d, w, [EGetTempDir d]).

(** [uuid.uuid4().hex] *)
Definition uuid4_hex : M string :=
  fun env h w => let x := env_uuid4_hex env h in (Ok x, w, [EUuid4 x]).

(** [requests.get(url=url, allow_redirects=True).content] *)
Definition requests_get (url : option string) : M bytes :=
  call_result (fun env tr => env_requests_get env tr url) (ERequestsGet url)
    (fun _ w => w).

Definition created (r : file_result) : bool :=
  match r with FileOk => true | FileErr _ c => c end.

Definition file_call (ask : Env -> list Event -> file_result)
    (ev : file_result -> Event) (path : string) : M unit :=
  fun env h w =>
    let r := ask env h in
    let w1 := if created r then set_files ({[path]} ∪ files w) w else w in
    match r with
    | FileOk => (Ok tt, w1, [ev r])
    | FileErr e _ => (Err e, w1, [ev r])
    end.

(** [with open(path, 'wb') as f: f.write(content)] *)
Definition write_file (path : string) (content : bytes) : M unit :=
  file_call (fun env tr => env_write_file env tr path content)
    (EWriteFile path content) path.

(** [AudioSegment.from_mp3(mp3).export(wav, format='wav')] *)
Definition mp3_to_wav (mp3 wav : string) : M unit :=
  file_call (fun env tr => env_mp3_to_wav env tr mp3 wav) (EMp3ToWav mp3 wav)
    wav.

(** [sr.AudioFile(path).__enter__()] *)
Definition audio_file_open (path : string) : M AudioSource :=
  call_result (fun env tr => env_audio_file_open env tr path)
    (EAudioFileOpen path) (fun _ w => w).

(** [recognizer.adjust_for_ambient_noise(source, duration=d)] *)
Definition adjust_for_ambient_noise (src : AudioSource) (d : Q) : M unit :=
  call_result (fun env tr => env_adjust_for_ambient_noise env tr src d)
    (EAdjustForAmbientNoise src d) (fun _ w => w).

(** [recognizer.record(source)] *)
Definition record (src : AudioSource) : M AudioData :=
  call_result (fun env tr => env_record env tr src) (ERecord src)
    (fun _ w => w).

(** [recognizer.recognize_google(audio, language=lang)] *)
Definition recognize_google (audio : AudioData) (lang : string) : M string :=
  call_result (fun env tr => env_recognize_google env tr audio lang)
    (ERecognizeGoogle audio lang) (fun _ w => w).

(** [os.path.exists(path)] *)
Definition os_path_exists (path : string) : M bool :=
  fun _ _ w => (Ok (bool_decide (path ∈ files w)), w, []).

(** [os.remove(path)] *)
Definition os_remove (path : string) : M unit :=
  call_result (fun env tr => env_remove env tr path) (ERemove path)
    (fun _ w => set_files (files w ∖ {[path]}) w).

(** [os.path.join(dir, name)] for a relative [name] *)
Definition os_path_join (dir name : string) : string :=
  dir +:+ "/" +:+ name.

(** ** Text helpers *)

Definition lower_ascii (c : ascii) : ascii :=
  let n := N_of_ascii c in
  if ((65 <=? n) && (n <=? 90))%N then ascii_of_N (n + 32) else c.

(** [str.lower] *)
Fixpoint lower (s : string) : string :=
  match s with
  | EmptyString => EmptyString
  | String c rest => String (lower_ascii c) (lower rest)
  end.

(** [range(n)] *)
Definition range (n : Z) : list Z := map Z.of_nat (seq 0 (Z.to_nat n)).

Definition dquote : string := String "034"%char EmptyString.

(** ** Delay policies (solver.py, lines 25-44) *)

(** The two classes of the module: the base class [DelayConfig], whose
    methods do nothing, and [StandardDelayConfig]. *)
Inductive DelayConfig : Type :=
| BaseDelayConfig
| StandardDelayConfig.

Definition delay_after_click_checkbox (d : DelayConfig) : M unit :=
  match d with
  | BaseDelayConfig => mret tt
  | StandardDelayConfig => sleep_uniform 1.5 3.0
  end.

Definition delay_after_click_verify_button (d : DelayConfig) : M unit :=
  match d with
  | BaseDelayConfig => mret tt
  | StandardDelayConfig => sleep_uniform 1.0 2.0
  end.

(** ** The solver (solver.py, lines 47-327) *)

Record RecaptchaSolver : Type := {
  _language : string;
  _delay_config : DelayConfig;
  _max_retries : Z
}.

(** [RecaptchaSolver.__init__]: [delay_config or StandardDelayConfig()]. *)
Definition RecaptchaSolver_init (service_language : string)
    (delay_config : option DelayConfig) (max_retries : Z) : RecaptchaSolver :=
  {| _language := service_language;
     _delay_config := default StandardDelayConfig delay_config;
     _max_retries := max_retries |}.

Definition _wait_for_element (by_ : By) (locator : string) (timeout : Z)
    : M WebElement :=
  wait_until visibility_of_element_located by_ locator timeout.

Definition _js_click (element : WebElement) : M unit :=
  execute_script "arguments[0].click();" element.

Fixpoint _human_type (element : WebElement) (text : string) : M unit :=
  match text with
  | EmptyString => mret tt
  | String c rest =>
      send_keys element (String c EmptyString);;
      sleep_uniform 0.05 0.1;;
      _human_type element rest
  end.

Definition msg_detected : string :=
  "Google has detected automated queries. Try again later.".
Definition msg_not_understood : string :=
  "Speech recognition API could not understand audio, try again".
Definition msg_exhausted : string :=
  "Failed to solve captcha after maximum retry attempts".

(** Lines 215-226: the [for lang in languages] loop; the result is the
    final value of [recognized_text] ([None] when no language was
    understood). *)
Fixpoint recognize_fallback (audio : AudioData) (languages : list string)
    : M (option string) :=
  match languages with
  | [] => mret None
  | lang :: rest =>
      r ← try (recognize_google audio lang);
      match r with
      | Ok text =>
          let recognized_text := lower text in
          print ("[INFO] Recognized CAPTCHA text: '" +:+ recognized_text
                 +:+ "' (language: " +:+ lang +:+ ")");;
          mret (Some recognized_text)
      | Err UnknownValueError =>
          print ("[WARN] Could not understand audio with language " +:+ lang);;
          recognize_fallback audio rest
      | Err (RequestError e) =>
          raise (RecaptchaException
                   ("Speech recognition service error: " +:+ e))
      | Err e => raise e
      end
  end.

(** Lines 231-238: the [finally] block. *)
Fixpoint cleanup (tmp_files : list string) : M unit :=
  match tmp_files with
  | [] => mret tt
  | path :: rest =>
      b ← os_path_exists path;
      (if b : bool then
         try_except (os_remove path)
           (fun e =>
              print ("[WARN] Could not remove temp file " +:+ path +:+ ": "
                     +:+ exn_str e))
       else mret tt);;
      cleanup rest
  end.

Definition fallback_languages (language : string) : list string :=
  [language; "en-US"; "en-GB"; "en"].

(** Lines 192-209: download the audio, convert it and load it. *)
Definition load_audio (download_link : WebElement)
    (mp3_file wav_file : string) : M AudioData :=
  link ← get_attribute download_link "href";
  audio_download ← requests_get link;
  write_file mp3_file audio_download;;
  print ("[INFO] Downloaded audio to " +:+ mp3_file);;
  mp3_to_wav mp3_file wav_file;;
  print "[INFO] Converted audio to WAV format";;
  source ← audio_file_open wav_file;
  adjust_for_ambient_noise source 0.5;;
  record source.

(** Lines 192-229: the body of the [try ... finally]; its value is
    [recognized_text], which is neither [None] nor empty when the body
    completes. *)
Definition transcribe (download_link : WebElement)
    (mp3_file wav_file language : string) : M string :=
  audio ← load_audio download_link mp3_file wav_file;
  recognized_text ← recognize_fallback audio (fallback_languages language);
  match recognized_text with
  | Some (String c s) => mret (String c s)
  | Some EmptyString | None => raise (RecaptchaException msg_not_understood)
  end.

Definition mp3_path (tmp_dir id_ : string) : string :=
  os_path_join tmp_dir (id_ +:+ "_tmp.mp3").
Definition wav_path (tmp_dir id_ : string) : string :=
  os_path_join tmp_dir (id_ +:+ "_tmp.wav").

(** Lines 240-246: type the text into the response box. *)
Definition enter_text (recognized_text : string) : M unit :=
  response_textbox ← find_element By_ID "audio-response";
  clear response_textbox;;
  _human_type response_textbox recognized_text;;
  print "[INFO] Entered CAPTCHA text".

(** Lines 161-246.  The set [tmp_files] is iterated as the list
    [[mp3_file; wav_file]]. *)
Definition _solve_audio_challenge (language : string) : M unit :=
  download_link ←
    try_except
      (_wait_for_element By_CLASS_NAME "rc-audiochallenge-tdownload-link" 10)
      (fun e =>
         if is_TimeoutException e then raise (RecaptchaException msg_detected)
         else raise e);
  tmp_dir ← gettempdir;
  id_ ← uuid4_hex;
  let mp3_file := mp3_path tmp_dir id_ in
  let wav_file := wav_path tmp_dir id_ in
  let tmp_files := [mp3_file; wav_file] in
  recognized_text ←
    try_finally (transcribe download_link mp3_file wav_file language)
      (cleanup tmp_files);
  enter_text recognized_text.

Definition audio_button_xpath : string :=
  "//*[@id=" +:+ dquote +:+ "recaptcha-audio-button" +:+ dquote +:+ "]".

(** Lines 96-111: the attempt to switch to the audio challenge. *)
Definition request_audio_mode : M unit :=
  try_except
    (audio_button ← _wait_for_element By_XPATH audio_button_xpath 2;
     _js_click audio_button;;
     print "[INFO] Switched to audio challenge";;
     sleep_uniform 2 3)
    (fun e =>
       if is_TimeoutException e then
         print "[INFO] Audio button not found, may already be in audio mode"
       else raise e).

(** Lines 116-127: locate and click the verify button, then pause.  An
    instance of a delay policy is truthy, so the guard
    [if self._delay_config] always holds. *)
Definition submit_verify (self : RecaptchaSolver) : M unit :=
  verify_button ← _wait_for_element By_ID "recaptcha-verify-button" 5;
  _js_click verify_button;;
  print "[INFO] Clicked verify button";;
  delay_after_click_verify_button (_delay_config self).

(** Lines 132-151: the [try] block of one iteration of the retry loop. *)
Definition retry_body (self : RecaptchaSolver) (i : Z) : M unit :=
  _wait_for_element By_CLASS_NAME "rc-audiochallenge-error-message" 1;;
  print ("[INFO] Error detected, retrying (" +:+ pretty (i + 1) +:+ "/"
         +:+ pretty (_max_retries self) +:+ ")...");;
  _solve_audio_challenge (_language self);;
  second_verify_button ← _wait_for_element By_ID "recaptcha-verify-button" 5;
  _js_click second_verify_button.

(** Lines 130-157: [for i in range(max_retries): try ... except
    TimeoutException: break / else: raise]. *)
Fixpoint retry_loop (self : RecaptchaSolver) (iterations : list Z) : M unit :=
  match iterations with
  | [] => raise (RecaptchaException msg_exhausted)
  | i :: rest =>
      r ← try (retry_body self i);
      match r with
      | Ok _ => retry_loop self rest
      | Err e => if is_TimeoutException e then mret tt else raise e
      end
  end.

(** Lines 94-127: everything before the retry loop. *)
Definition solve_prologue (self : RecaptchaSolver) (iframe : WebElement)
    : M unit :=
  switch_to_frame iframe;;
  request_audio_mode;;
  _solve_audio_challenge (_language self);;
  submit_verify self.

(** Lines 82-159. *)
Definition solve_recaptcha_v2_challenge (self : RecaptchaSolver)
    (iframe : WebElement) : M unit :=
  solve_prologue self iframe;;
  retry_loop self (range (_max_retries self));;
  switch_to_parent_frame.


(** ** Reading a trace *)

(** The post-verify probe for the error indicator (line 133). *)
Definition is_probe (ev : Event) : bool :=
  match ev with
  | EWait visibility_of_element_located By_CLASS_NAME loc _ _ =>
      String.eqb loc "rc-audiochallenge-error-message"
  | _ => false
  end.

(** A probe that timed out: the indicator is absent. *)
Definition is_probe_timeout (ev : Event) : bool :=
  match ev with
  | EWait _ _ _ _ (Err e) => is_probe ev && is_TimeoutException e
  | _ => false
  end.

(** A probe that found the indicator. *)
Definition is_probe_present (ev : Event) : bool :=
  match ev with
  | EWait _ _ _ _ (Ok _) => is_probe ev
  | _ => false
  end.

(** The wait for the download link (line 173) opens every run of the
    transcription pipeline, and nothing else issues it. *)
Definition is_pipeline_invocation (ev : Event) : bool :=
  match ev with
  | EWait visibility_of_element_located By_CLASS_NAME loc _ _ =>
      String.eqb loc "rc-audiochallenge-tdownload-link"
  | _ => false
  end.

(** A wait for the download link that timed out. *)
Definition is_link_timeout (ev : Event) : bool :=
  match ev with
  | EWait _ _ _ _ (Err e) => is_pipeline_invocation ev && is_TimeoutException e
  | _ => false
  end.

(** A synthesized click ([_js_click]). *)
Definition is_click (ev : Event) : bool :=
  match ev with EExecuteScript _ _ _ => true | _ => false end.

Definition is_recognition (ev : Event) : bool :=
  match ev with ERecognizeGoogle _ _ _ => true | _ => false end.

Definition is_failed_remove (ev : Event) : bool :=
  match ev with ERemove _ (Err _) => true | _ => false end.

Definition is_switch_parent (ev : Event) : bool :=
  match ev with ESwitchParentFrame => true | _ => false end.

(** The pause of [delay_after_click_checkbox] in the standard policy. *)
Definition is_checkbox_delay (ev : Event) : bool :=
  match ev with
  | ESleepUniform lo hi => Qeq_bool lo 1.5 && Qeq_bool hi 3.0
  | _ => false
  end.

Definition is_send_keys (ev : Event) : bool :=
  match ev with ESendKeys _ _ _ => true | _ => false end.


Definition count (f : Event -> bool) (t : list Event) : nat :=
  length (filter (fun ev => f ev = true) t).

(** The recognition attempts of a trace, in order: language and answer. *)
Fixpoint recognitions (t : list Event) : list (string * result string) :=
  match t with
  | [] => []
  | ERecognizeGoogle _ lang r :: rest => (lang, r) :: recognitions rest
  | _ :: rest => recognitions rest
  end.

(** The text typed into the page, key by key. *)
Fixpoint typed_text (t : list Event) : string :=
  match t with
  | [] => EmptyString
  | ESendKeys _ keys (Ok _) :: rest => keys +:+ typed_text rest
  | _ :: rest => typed_text rest
  end.

Definition probe_event (res : result WebElement) : Event :=
  EWait visibility_of_element_located By_CLASS_NAME
    "rc-audiochallenge-error-message" 1 res.

Definition link_event (res : result WebElement) : Event :=
  EWait visibility_of_element_located By_CLASS_NAME
    "rc-audiochallenge-tdownload-link" 10 res.

Definition audio_wait_event (res : result WebElement) : Event :=
  EWait visibility_of_element_located By_XPATH audio_button_xpath 2 res.

Definition click_event (el : WebElement) (res : result unit) : Event :=
  EExecuteScript "arguments[0].click();" el res.

Definition msg_audio_not_found : string :=
  "[INFO] Audio button not found, may already be in audio mode".

Definition detected : exn := RecaptchaException msg_detected.


(** ** The world is a function of the trace *)

Definition apply_event (ev : Event) (w : World) : World :=
  match ev with
  | ESwitchFrame el (Ok _) => set_frames (el :: frames w) w
  | ESwitchParentFrame => set_frames (tail (frames w)) w
  | ESwitchDefaultContent => set_frames [] w
  | EWriteFile path _ r =>
      if created r then set_files ({[path]} ∪ files w) w else w
  | EMp3ToWav _ wav r =>
      if created r then set_files ({[wav]} ∪ files w) w else w
  | ERemove path (Ok _) => set_files (files w ∖ {[path]}) w
  | _ => w
  end.

Definition replay (t : list Event) (w : World) : World :=
  fold_left (fun w ev => apply_event ev w) t w.

(** [follows f]: the final world is the replay of the added events, all
    of which are in the footprint [f]. *)
Definition follows (f : Event -> bool) (w w' : World) (t : list Event)
    : Prop :=
  w' = replay t w /\ Forall (fun ev => f ev = true) t.

Definition preserves {A} (f : Event -> bool) (m : M A) : Prop :=
  forall env h w r w' t, run m env h w = (r, w', t) -> follows f w w' t.

(** [stops fatal e0 m]: whenever a run of [m] emits an event in [fatal],
    that event is its last one and the run raises [e0]. *)
Definition stops {A} (fatal : Event -> bool) (e0 : exn) (m : M A) : Prop :=
  forall env h w r w' t (k : nat) ev,
    run m env h w = (r, w', t) ->
    t !! k = Some ev -> fatal ev = true ->
    r = Err e0 /\ length t = S k.

(** ** Footprints of the solver's parts *)

(** Page interaction other than the probe and the download-link wait, and
    pauses other than the checkbox delay. *)
Definition ui_event (ev : Event) : bool :=
  match ev with
  | EWait _ _ _ _ _ => negb (is_probe ev) && negb (is_pipeline_invocation ev)
  | ESleepUniform _ _ => negb (is_checkbox_delay ev)
  | EExecuteScript _ _ _ | EFindElement _ _ _ | EClear _ _
  | ESendKeys _ _ _ | EPrint _ => true
  | _ => false
  end.

Definition clean_event (ev : Event) : bool :=
  match ev with ERemove _ _ | EPrint _ => true | _ => false end.

Definition rec_event (ev : Event) : bool :=
  match ev with ERecognizeGoogle _ _ _ | EPrint _ => true | _ => false end.

(** Download, conversion and loading of the audio. *)
Definition fetch_event (ev : Event) : bool :=
  match ev with
  | EGetAttribute _ _ _ | ERequestsGet _ _ | EWriteFile _ _ _ | EPrint _
  | EMp3ToWav _ _ _ | EAudioFileOpen _ _ | EAdjustForAmbientNoise _ _ _
  | ERecord _ _ => true
  | _ => false
  end.

Definition io_event (ev : Event) : bool :=
  match ev with
  | EGetTempDir _ | EUuid4 _ => true
  | _ => fetch_event ev || rec_event ev || clean_event ev
  end.

(** What the pipeline may emit after the wait for the download link. *)
Definition tail_event (ev : Event) : bool := ui_event ev || io_event ev.

(** What a run of the transcription pipeline may emit. *)
Definition pipeline_event (ev : Event) : bool :=
  is_pipeline_invocation ev || ui_event ev || io_event ev.

(** What the solver may emit between entering and leaving the frame. *)
Definition inner_event (ev : Event) : bool :=
  is_probe ev || pipeline_event ev.

(** ** Shapes of runs *)

(** How a run of [solve_recaptcha_v2_challenge] can end. *)
Inductive solve_exit (iframe : WebElement) (w : World)
    : result unit -> World -> list Event -> Prop :=
| exit_not_entered e :
    solve_exit iframe w (Err e) w [ESwitchFrame iframe (Err e)]
| exit_raised e w' t1 :
    follows inner_event (set_frames (iframe :: frames w) w) w' t1 ->
    solve_exit iframe w (Err e) w' (ESwitchFrame iframe (Ok tt) :: t1)
| exit_returned w1 t1 :
    follows inner_event (set_frames (iframe :: frames w) w) w1 t1 ->
    solve_exit iframe w (Ok tt) (set_frames (tail (frames w1)) w1)
      (ESwitchFrame iframe (Ok tt) :: t1 ++ [ESwitchParentFrame]).

(** Every iteration of the retry loop runs to completion: the probe finds
    the error indicator, the pipeline runs again and the verify button is
    located and clicked again, nothing raising. *)
Fixpoint retries_complete (self : RecaptchaSolver) (env : Env)
    (iterations : list Z) (h : list Event) (w : World) : Prop :=
  match iterations with
  | [] => True
  | i :: rest =>
      match run (retry_body self i) env h w with
      | (Ok _, w1, t1) => retries_complete self env rest (h ++ t1) w1
      | (Err _, _, _) => False
      end
  end.

(** The recognition attempts [recs] made over the languages [langs], and
    the outcome of the loop. *)
Inductive rec_shape
    : list string -> list (string * result string) ->
      result (option string) -> Prop :=
| shape_exhausted : rec_shape [] [] (Ok None)
| shape_text lang rest text :
    rec_shape (lang :: rest) [(lang, Ok text)] (Ok (Some (lower text)))
| shape_unknown lang rest recs ro :
    rec_shape rest recs ro ->
    rec_shape (lang :: rest) ((lang, Err UnknownValueError) :: recs) ro
| shape_request lang rest m :
    rec_shape (lang :: rest) [(lang, Err (RequestError m))]
      (Err (RecaptchaException ("Speech recognition service error: " +:+ m)))
| shape_other lang rest e :
    e <> UnknownValueError -> (forall m, e <> RequestError m) ->
    rec_shape (lang :: rest) [(lang, Err e)] (Err e).

(** ** Scripted environments *)

(** Everything succeeds, except that the element waits, the recognition
    service and file removal follow the given scripts. *)
Definition scripted_env
    (wait : list Event -> By -> string -> result WebElement)
    (recognize : list Event -> string -> result string)
    (remove : list Event -> string -> result unit) : Env :=
  {| env_switch_frame := fun _ _ => Ok tt;
     env_wait := fun h _ by_ loc _ => wait h by_ loc;
     env_find_element := fun _ _ _ => Ok 7%N;
     env_execute_script := fun _ _ _ => Ok tt;
     env_get_attribute := fun _ _ name => Ok (Some ("value-of-" +:+ name));
     env_clear := fun _ _ => Ok tt;
     env_send_keys := fun _ _ _ => Ok tt;
     env_gettempdir := fun _ => "/tmp";
     env_uuid4_hex := fun h => "id" +:+ pretty (length h);
     env_requests_get := fun _ _ => Ok [];
     env_write_file := fun _ _ _ => FileOk;
     env_mp3_to_wav := fun _ _ _ => FileOk;
     env_audio_file_open := fun _ _ => Ok 1%N;
     env_adjust_for_ambient_noise := fun _ _ _ => Ok tt;
     env_record := fun _ _ => Ok 2%N;
     env_recognize_google := fun h _ lang => recognize h lang;
     env_remove := remove |}.

Definition timeout_msg : string := "Message: ".

(** Every element is found, but the error indicator never shows. *)
Definition wait_no_error (h : list Event) (by_ : By) (loc : string)
    : result WebElement :=
  if String.eqb loc "rc-audiochallenge-error-message"
  then Err (TimeoutException timeout_msg) else Ok 5%N.

(** Every element is found, the error indicator included. *)
Definition wait_always_error (h : list Event) (by_ : By) (loc : string)
    : result WebElement := Ok 5%N.

Definition w0 : World := mkWorld [] ∅.

(** The download link never shows; everything else is found. *)
Definition wait_no_link (h : list Event) (by_ : By) (loc : string)
    : result WebElement :=
  if String.eqb loc "rc-audiochallenge-tdownload-link"
  then Err (TimeoutException timeout_msg) else Ok 5%N.

Definition recognize_blue_cat (h : list Event) (lang : string)
    : result string := Ok "Blue Cat".

Definition remove_ok (h : list Event) (path : string) : result unit := Ok tt.

Definition env_solved : Env :=
  scripted_env wait_no_error recognize_blue_cat remove_ok.
Definition env_detected : Env :=
  scripted_env wait_no_link recognize_blue_cat remove_ok.

Definition solver3 : RecaptchaSolver := RecaptchaSolver_init "en-US" None 3.

Definition env_always_error : Env :=
  scripted_env wait_always_error recognize_blue_cat remove_ok.

(** The recognition service answers the first request and fails with a
    service error afterwards. *)
Definition recognize_then_quota (h : list Event) (lang : string)
    : result string :=
  match count is_recognition h with
  | O => Ok "Blue Cat"
  | S _ => Err (RequestError "quota exceeded")
  end.

Definition env_quota_on_retry : Env :=
  scripted_env wait_always_error recognize_then_quota remove_ok.

Definition solver1 : RecaptchaSolver := RecaptchaSolver_init "en-US" None 1.

Definition solver0 : RecaptchaSolver := RecaptchaSolver_init "en-US" None 0.

(** Neither the audio-mode control nor the download link shows. *)
Definition wait_nothing_found (h : list Event) (by_ : By) (loc : string)
    : result WebElement := Err (TimeoutException timeout_msg).

Definition env_nothing_found : Env :=
  scripted_env wait_nothing_found recognize_blue_cat remove_ok.

(** A solver configured with the policy that never pauses. *)
Definition solver_no_delay : RecaptchaSolver :=
  RecaptchaSolver_init "en-US" (Some BaseDelayConfig) 3.


(** A world in which the session is inside two nested frames. *)
Definition w_nested : World := mkWorld [4%N; 3%N] ∅.

(** Removing a file is refused. *)
Definition remove_denied (h : list Event) (path : string) : result unit :=
  Err (OtherException "PermissionError" "[Errno 13] Permission denied").

Definition env_remove_denied : Env :=
  scripted_env wait_no_error recognize_blue_cat remove_denied.



(** The first recognition request is not understood, the second hits a
    service error. *)
Definition recognize_fault_on_second (h : list Event) (lang : string)
    : result string :=
  match count is_recognition h with
  | O => Err UnknownValueError
  | S _ => Err (RequestError "quota exceeded")
  end.

Definition env_service_fault : Env :=
  scripted_env wait_no_error recognize_fault_on_second remove_ok.

(** ** Exact footprints *)

Definition verify_wait_event (res : result WebElement) : Event :=
  EWait visibility_of_element_located By_ID "recaptcha-verify-button" 5 res.

(** The wait for the verify button (lines 117 and 145). *)
Definition is_verify_wait (ev : Event) : bool :=
  match ev with
  | EWait visibility_of_element_located By_ID loc _ _ =>
      String.eqb loc "recaptcha-verify-button"
  | _ => false
  end.

(** The wait for the audio-mode control (line 98). *)
Definition is_audio_wait (ev : Event) : bool :=
  match ev with
  | EWait visibility_of_element_located By_XPATH loc _ _ =>
      String.eqb loc audio_button_xpath
  | _ => false
  end.

(** The pause between two keystrokes (line 293). *)
Definition is_key_pause (ev : Event) : bool :=
  match ev with
  | ESleepUniform lo hi => Qeq_bool lo 0.05 && Qeq_bool hi 0.1
  | _ => false
  end.

(** The pause after the click on the audio-mode control (line 107). *)
Definition is_audio_pause (ev : Event) : bool :=
  match ev with
  | ESleepUniform lo hi => Qeq_bool lo 2 && Qeq_bool hi 3
  | _ => false
  end.

(** The pause of [delay_after_click_verify_button] in the standard
    policy. *)
Definition is_verify_delay (ev : Event) : bool :=
  match ev with
  | ESleepUniform lo hi => Qeq_bool lo 1.0 && Qeq_bool hi 2.0
  | _ => false
  end.

Definition is_switch_frame (ev : Event) : bool :=
  match ev with ESwitchFrame _ _ => true | _ => false end.

Definition is_switch_default (ev : Event) : bool :=
  match ev with ESwitchDefaultContent => true | _ => false end.

(** The calls a run of the transcription pipeline can make. *)
Definition pipeline_exact (ev : Event) : bool :=
  match ev with
  | EWait _ _ _ _ _ => is_pipeline_invocation ev
  | ESleepUniform _ _ => is_key_pause ev
  | EFindElement By_ID loc _ => String.eqb loc "audio-response"
  | EGetAttribute _ name _ => String.eqb name "href"
  | EClear _ _ | ESendKeys _ _ _ | EPrint _ | EGetTempDir _ | EUuid4 _
  | ERequestsGet _ _ | EWriteFile _ _ _ | EMp3ToWav _ _ _
  | EAudioFileOpen _ _ | EAdjustForAmbientNoise _ _ _ | ERecord _ _
  | ERecognizeGoogle _ _ _ | ERemove _ _ => true
  | _ => false
  end.

(** The calls of [request_audio_mode]. *)
Definition audio_exact (ev : Event) : bool :=
  match ev with
  | EWait _ _ _ _ _ => is_audio_wait ev
  | ESleepUniform _ _ => is_audio_pause ev
  | EExecuteScript _ _ _ | EPrint _ => true
  | _ => false
  end.

(** The calls of [submit_verify]. *)
Definition verify_exact (ev : Event) : bool :=
  match ev with
  | EWait _ _ _ _ _ => is_verify_wait ev
  | ESleepUniform _ _ => is_verify_delay ev
  | EExecuteScript _ _ _ | EPrint _ => true
  | _ => false
  end.

(** The calls of one iteration of the retry loop. *)
Definition retry_exact (ev : Event) : bool :=
  match ev with
  | EWait _ _ _ _ _ =>
      is_probe ev || is_verify_wait ev || is_pipeline_invocation ev
  | EExecuteScript _ _ _ => true
  | _ => pipeline_exact ev
  end.

(** The trace of [_human_type] when every keystroke is accepted. *)
Fixpoint key_events (element : WebElement) (text : string) : list Event :=
  match text with
  | EmptyString => []
  | String c rest =>
      ESendKeys element (String c EmptyString) (Ok tt)
      :: ESleepUniform 0.05 0.1 :: key_events element rest
  end.

(** File operations of the event, if any, are on one of [paths]. *)
Definition touches_only (paths : list string) (ev : Event) : bool :=
  match ev with
  | EWriteFile p _ _ | EMp3ToWav _ p _ | ERemove p _ =>
      existsb (String.eqb p) paths
  | _ => true
  end.

(** A wait for the verify button that timed out with message [m]. *)
Definition is_verify_timeout (m : string) (ev : Event) : bool :=
  match ev with
  | EWait _ _ _ _ r =>
      is_verify_wait ev &&
      match r with
      | Err (TimeoutException m') => String.eqb m' m
      | _ => false
      end
  | _ => false
  end.

(** Runs in which no [os.remove] fails do not add files. *)
Definition no_new_files (w w' : World) (t : list Event) : Prop :=
  count is_failed_remove t = 0%nat -> files w' ⊆ files w.

Definition respects {A} (Q : World -> World -> list Event -> Prop)
    (m : M A) : Prop :=
  forall env h w r w' t, run m env h w = (r, w', t) -> Q w w' t.

(** A call on the response text box (lines 241-245). *)
Definition is_response_box (ev : Event) : bool :=
  match ev with
  | EFindElement _ _ _ | EClear _ _ | ESendKeys _ _ _ => true
  | _ => false
  end.

(** ** Further scripted environments *)

(** The page refuses the third keystroke. *)
Definition env_third_key_refused : Env :=
  {| env_switch_frame := env_switch_frame env_solved;
     env_wait := env_wait env_solved;
     env_find_element := env_find_element env_solved;
     env_execute_script := env_execute_script env_solved;
     env_get_attribute := env_get_attribute env_solved;
     env_clear := env_clear env_solved;
     env_send_keys := fun h _ _ =>
       match count is_send_keys h with
       | 2%nat =>
           Err (StaleElementReferenceException "stale element reference")
       | _ => Ok tt
       end;
     env_gettempdir := env_gettempdir env_solved;
     env_uuid4_hex := env_uuid4_hex env_solved;
     env_requests_get := env_requests_get env_solved;
     env_write_file := env_write_file env_solved;
     env_mp3_to_wav := env_mp3_to_wav env_solved;
     env_audio_file_open := env_audio_file_open env_solved;
     env_adjust_for_ambient_noise := env_adjust_for_ambient_noise env_solved;
     env_record := env_record env_solved;
     env_recognize_google := env_recognize_google env_solved;
     env_remove := env_remove env_solved |}.

Definition w_with_file : World := mkWorld [] {["/tmp/report.pdf"]}.

(** The recognition service answers with the empty text. *)
Definition recognize_silence (h : list Event) (lang : string)
    : result string := Ok EmptyString.

Definition env_silence : Env :=
  scripted_env wait_no_error recognize_silence remove_ok.

(** The recognition service understands nothing. *)
Definition recognize_nothing (h : list Event) (lang : string)
    : result string := Err UnknownValueError.

Definition env_not_understood : Env :=
  scripted_env wait_no_error recognize_nothing remove_ok.

(** The verify button is found once and never again. *)
Definition wait_verify_lost (h : list Event) (by_ : By) (loc : string)
    : result WebElement :=
  if String.eqb loc "recaptcha-verify-button" then
    match count is_verify_wait h with
    | O => Ok 5%N
    | S _ => Err (TimeoutException timeout_msg)
    end
  else Ok 5%N.

(** The verify button is never found. *)
Definition wait_verify_missing (h : list Event) (by_ : By) (loc : string)
    : result WebElement :=
  if String.eqb loc "recaptcha-verify-button"
  then Err (TimeoutException timeout_msg) else Ok 5%N.

Definition env_verify_lost : Env :=
  scripted_env wait_verify_lost recognize_blue_cat remove_ok.

Definition env_verify_missing : Env :=
  scripted_env wait_verify_missing recognize_blue_cat remove_ok.

(** The click on the audio-mode control times out. *)
Definition env_click_timeout : Env :=
  {| env_switch_frame := env_switch_frame env_solved;
     env_wait := env_wait env_solved;
     env_find_element := env_find_element env_solved;
     env_execute_script := fun _ _ _ =>
       Err (TimeoutException "script timeout");
     env_get_attribute := env_get_attribute env_solved;
     env_clear := env_clear env_solved;
     env_send_keys := env_send_keys env_solved;
     env_gettempdir := env_gettempdir env_solved;
     env_uuid4_hex := env_uuid4_hex env_solved;
     env_requests_get := env_requests_get env_solved;
     env_write_file := env_write_file env_solved;
     env_mp3_to_wav := env_mp3_to_wav env_solved;
     env_audio_file_open := env_audio_file_open env_solved;
     env_adjust_for_ambient_noise := env_adjust_for_ambient_noise env_solved;
     env_record := env_record env_solved;
     env_recognize_google := env_recognize_google env_solved;
     env_remove := env_remove env_solved |}.


(** * Verified properties *)

(** ** Laws of the monad *)

Lemma run_bind {A B} (m : M A) (k : A -> M B) env h w :
  run (m ≫= k) env h w =
  match run m env h w with
  | (Ok a, w1, t1) =>
      match run (k a) env (h ++ t1) w1 with
      | (r, w2, t2) => (r, w2, t1 ++ t2)
      end
  | (Err e, w1, t1) => (Err e, w1, t1)
  end.
Proof. reflexivity. Qed.

Lemma bind_inv {A B} (m : M A) (k : A -> M B) env h w r w' t :
  run (m ≫= k) env h w = (r, w', t) ->
  (exists a w1 t1 t2,
      run m env h w = (Ok a, w1, t1) /\
      run (k a) env (h ++ t1) w1 = (r, w', t2) /\ t = t1 ++ t2)
  \/ (exists e, run m env h w = (Err e, w', t) /\ r = Err e).
Proof.
  rewrite run_bind. destruct (run m env h w) as [[[a|e] w1] t1].
  - destruct (run (k a) env (h ++ t1) w1) as [[r2 w2] t2] eqn:E.
    intros [= <- <- <-]. left. by exists a, w1, t1, t2.
  - intros [= <- <- <-]. right. by exists e.
Qed.

Lemma bind_ok {A B} (m : M A) (k : A -> M B) env h w a w1 t1 :
  run m env h w = (Ok a, w1, t1) ->
  run (m ≫= k) env h w =
  match run (k a) env (h ++ t1) w1 with (r, w2, t2) => (r, w2, t1 ++ t2) end.
Proof. intros E. rewrite run_bind, E. reflexivity. Qed.

Lemma bind_err {A B} (m : M A) (k : A -> M B) env h w e w1 t1 :
  run m env h w = (Err e, w1, t1) ->
  run (m ≫= k) env h w = (Err e, w1, t1).
Proof. intros E. rewrite run_bind, E. reflexivity. Qed.

Lemma try_except_inv {A} (body : M A) handler env h w r w' t :
  run (try_except body handler) env h w = (r, w', t) ->
  (exists a, run body env h w = (Ok a, w', t) /\ r = Ok a)
  \/ (exists e w1 t1 t2,
         run body env h w = (Err e, w1, t1) /\
         run (handler e) env (h ++ t1) w1 = (r, w', t2) /\ t = t1 ++ t2).
Proof.
  unfold run, try_except. destruct (body env h w) as [[[a|e] w1] t1].
  - intros [= <- <- <-]. left. by exists a.
  - destruct (handler e env (h ++ t1) w1) as [[r2 w2] t2] eqn:E.
    intros [= <- <- <-]. right. by exists e, w1, t1, t2.
Qed.

Lemma try_finally_inv {A} (body : M A) fin env h w r w' t :
  run (try_finally body fin) env h w = (r, w', t) ->
  exists rb w1 t1 rf t2,
    run body env h w = (rb, w1, t1) /\
    run fin env (h ++ t1) w1 = (rf, w', t2) /\ t = t1 ++ t2 /\
    r = match rf with Ok _ => rb | Err e => Err e end.
Proof.
  unfold run, try_finally. destruct (body env h w) as [[rb w1] t1].
  destruct (fin env (h ++ t1) w1) as [[[u|e] w2] t2] eqn:E;
    intros [= <- <- <-].
  - by exists rb, w1, t1, (Ok u), t2.
  - by exists rb, w1, t1, (Err e), t2.
Qed.

Lemma run_try {A} (m : M A) env h w :
  run (try m) env h w =
  match run m env h w with (r, w1, t1) => (Ok r, w1, t1) end.
Proof. reflexivity. Qed.

Lemma try_inv {A} (m : M A) env h w r w' t :
  run (try m) env h w = (r, w', t) ->
  exists rb, run m env h w = (rb, w', t) /\ r = Ok rb.
Proof.
  unfold run, try. destruct (m env h w) as [[rb w1] t1].
  intros [= <- <- <-]. by exists rb.
Qed.

(** ** Replay and footprints: general lemmas *)

Lemma replay_app t1 t2 w : replay (t1 ++ t2) w = replay t2 (replay t1 w).
Proof. apply fold_left_app. Qed.

Lemma follows_nil f w : follows f w w [].
Proof. by split. Qed.

Lemma follows_app f w w1 w2 t1 t2 :
  follows f w w1 t1 -> follows f w1 w2 t2 -> follows f w w2 (t1 ++ t2).
Proof.
  intros [-> H1] [-> H2]. split; [by rewrite replay_app|].
  by apply Forall_app.
Qed.

Lemma follows_weaken (f g : Event -> bool) w w' t :
  (forall ev, f ev = true -> g ev = true) ->
  follows f w w' t -> follows g w w' t.
Proof. intros Hfg [-> H]. split; [done|]. eapply Forall_impl; eauto. Qed.

Lemma preserves_weaken {A} (f g : Event -> bool) (m : M A) :
  (forall ev, f ev = true -> g ev = true) -> preserves f m -> preserves g m.
Proof. intros Hfg Hm env h w r w' t E. eapply follows_weaken; eauto. Qed.

Section Preserves.
Variable f : Event -> bool.

Lemma preserves_ret {A} (a : A) : preserves f (mret a).
Proof. intros env h w r w' t [= <- <- <-]. apply follows_nil. Qed.

Lemma preserves_raise {A} e : preserves f (@raise A e).
Proof. intros env h w r w' t [= <- <- <-]. apply follows_nil. Qed.

Lemma preserves_bind {A B} (m : M A) (k : A -> M B) :
  preserves f m -> (forall a, preserves f (k a)) -> preserves f (m ≫= k).
Proof.
  intros Hm Hk env h w r w' t E.
  apply bind_inv in E as [(a & w1 & t1 & t2 & E1 & E2 & ->)|(e & E1 & ->)].
  - eapply follows_app; [eapply Hm | eapply Hk]; eauto.
  - eapply Hm; eauto.
Qed.

Lemma preserves_try {A} (m : M A) : preserves f m -> preserves f (try m).
Proof.
  intros Hm env h w r w' t E. apply try_inv in E as (rb & E & ->).
  eapply Hm; eauto.
Qed.

Lemma preserves_try_except {A} (body : M A) handler :
  preserves f body -> (forall e, preserves f (handler e)) ->
  preserves f (try_except body handler).
Proof.
  intros Hb Hh env h w r w' t E.
  apply try_except_inv in E
    as [(a & E & ->)|(e & w1 & t1 & t2 & E1 & E2 & ->)].
  - eapply Hb; eauto.
  - eapply follows_app; [eapply Hb | eapply Hh]; eauto.
Qed.

Lemma preserves_try_finally {A} (body : M A) fin :
  preserves f body -> preserves f fin ->
  preserves f (try_finally body fin).
Proof.
  intros Hb Hf env h w r w' t E.
  apply try_finally_inv in E
    as (rb & w1 & t1 & rf & t2 & E1 & E2 & -> & _).
  eapply follows_app; [eapply Hb | eapply Hf]; eauto.
Qed.

Lemma preserves_call_result {A} ask (ev : result A -> Event) eff :
  (forall a w, eff a w = apply_event (ev (Ok a)) w) ->
  (forall e w, apply_event (ev (Err e)) w = w) ->
  (forall r, f (ev r) = true) ->
  preserves f (call_result ask ev eff).
Proof.
  intros Hok Herr Hf env h w r w' t. unfold run, call_result.
  destruct (ask env h) as [a|e]; intros [= <- <- <-];
    (split; [|by repeat constructor]); simpl; by rewrite ?Hok, ?Herr.
Qed.

Lemma preserves_emit ev :
  (forall w, apply_event ev w = w) -> f ev = true -> preserves f (emit ev).
Proof.
  intros Hw Hf env h w r w' t [= <- <- <-].
  split; [simpl; by rewrite Hw | by repeat constructor].
Qed.

Lemma preserves_file_call ask (ev : file_result -> Event) path :
  (forall r w,
      apply_event (ev r) w =
      if created r then set_files ({[path]} ∪ files w) w else w) ->
  (forall r, f (ev r) = true) ->
  preserves f (file_call ask ev path).
Proof.
  intros Hw Hf env h w r w' t. unfold run, file_call.
  destruct (ask env h) as [|e c] eqn:E; intros [= <- <- <-];
    (split; [simpl; by rewrite Hw | by repeat constructor]).
Qed.

Lemma preserves_gettempdir :
  (forall d, f (EGetTempDir d) = true) -> preserves f gettempdir.
Proof.
  intros Hf env h w r w' t [= <- <- <-]. split; [done | by repeat constructor].
Qed.

Lemma preserves_uuid4_hex :
  (forall x, f (EUuid4 x) = true) -> preserves f uuid4_hex.
Proof.
  intros Hf env h w r w' t [= <- <- <-]. split; [done | by repeat constructor].
Qed.

Lemma preserves_os_path_exists path : preserves f (os_path_exists path).
Proof. intros env h w r w' t [= <- <- <-]. apply follows_nil. Qed.

Lemma preserves_switch_to_parent_frame :
  f ESwitchParentFrame = true -> preserves f switch_to_parent_frame.
Proof.
  intros Hf env h w r w' t [= <- <- <-]. split; [done | by repeat constructor].
Qed.

Lemma preserves_switch_to_default_content :
  f ESwitchDefaultContent = true -> preserves f switch_to_default_content.
Proof.
  intros Hf env h w r w' t [= <- <- <-]. split; [done | by repeat constructor].
Qed.
End Preserves.

(** ** The footprint of each part of the solver *)

Create HintDb calls discriminated.
#[local] Hint Unfold _wait_for_element _js_click wait_until find_element
  execute_script get_attribute clear send_keys print sleep_uniform
  requests_get write_file mp3_to_wav audio_file_open adjust_for_ambient_noise
  record recognize_google os_remove switch_to_frame : calls.

Ltac footprint_step :=
  first
    [ match goal with
      | H : preserves ?f ?m |- preserves ?f ?m => exact H
      | |- preserves _ (_human_type _ _) => fail 2
      | |- preserves _ (_solve_audio_challenge _) => fail 2
      | |- preserves _ (retry_body _ _) => fail 2
      | |- preserves _ (retry_loop _ _) => fail 2
      | |- preserves _ request_audio_mode => fail 2
      | |- preserves _ (submit_verify _) => fail 2
      end
    | apply preserves_ret
    | apply preserves_raise
    | apply preserves_bind; [|intros ?]
    | apply preserves_try_except; [|intros ?]
    | apply preserves_try_finally
    | apply preserves_try
    | apply preserves_emit; [intros; reflexivity | reflexivity]
    | apply preserves_call_result; intros; reflexivity
    | apply preserves_file_call; intros; reflexivity
    | apply preserves_gettempdir; intros; reflexivity
    | apply preserves_uuid4_hex; intros; reflexivity
    | apply preserves_os_path_exists
    | apply preserves_switch_to_parent_frame; reflexivity
    | apply preserves_switch_to_default_content; reflexivity
    | match goal with
      | |- preserves _ (match ?x with _ => _ end) => destruct x
      end ].

Ltac footprint := autounfold with calls; repeat footprint_step.

(** [sub L]: use the footprint lemma [L] of a part, whose footprint is
    included in the current one. *)
Ltac sub L :=
  eapply preserves_weaken; [|apply L];
  let ev := fresh in
  let H := fresh in
  intros ev H; first
    [ exact H
    | rewrite H; reflexivity
    | unfold tail_event; rewrite ?H, ?orb_true_r; reflexivity
    | unfold inner_event; rewrite ?H, ?orb_true_r; reflexivity
    | unfold inner_event, pipeline_event; rewrite ?H, ?orb_true_r;
      reflexivity ].

Lemma human_type_footprint element text :
  preserves ui_event (_human_type element text).
Proof. induction text as [|c rest IH]; simpl; footprint. Qed.

Lemma recognize_fallback_footprint audio languages :
  preserves rec_event (recognize_fallback audio languages).
Proof. induction languages as [|l rest IH]; simpl; footprint. Qed.

Lemma cleanup_footprint tmp_files : preserves clean_event (cleanup tmp_files).
Proof. induction tmp_files as [|p rest IH]; simpl; footprint. Qed.

Lemma transcribe_footprint link mp3 wav language :
  preserves (fun ev => fetch_event ev || rec_event ev)
    (transcribe link mp3 wav language).
Proof.
  unfold transcribe. footprint.
Qed.

Lemma solve_audio_challenge_footprint language :
  preserves pipeline_event (_solve_audio_challenge language).
Proof.
  unfold _solve_audio_challenge. footprint.
  sub human_type_footprint.
Qed.

Lemma request_audio_mode_footprint : preserves ui_event request_audio_mode.
Proof. unfold request_audio_mode. footprint. Qed.

Lemma submit_verify_footprint self : preserves ui_event (submit_verify self).
Proof.
  unfold submit_verify, delay_after_click_verify_button. footprint.
Qed.

Lemma retry_body_footprint self i : preserves inner_event (retry_body self i).
Proof.
  unfold retry_body. footprint.
  sub solve_audio_challenge_footprint.
Qed.

Lemma retry_loop_footprint self iterations :
  preserves inner_event (retry_loop self iterations).
Proof.
  induction iterations as [|i rest IH]; simpl; footprint.
  sub retry_body_footprint.
Qed.

(** ** Consequences of the footprints *)

Lemma inner_event_frames ev w :
  inner_event ev = true -> frames (apply_event ev w) = frames w.
Proof.
  intros H. destruct ev; try discriminate H; simpl; repeat case_match; done.
Qed.

Lemma replay_inner_frames t w :
  Forall (fun ev => inner_event ev = true) t ->
  frames (replay t w) = frames w.
Proof.
  intros H. revert w. induction H as [|ev t Hev _ IH]; intros w; [done|].
  simpl. rewrite IH. by apply inner_event_frames.
Qed.

Lemma follows_inner_frames w w' t :
  follows inner_event w w' t -> frames w' = frames w.
Proof. intros [-> H]. by apply replay_inner_frames. Qed.

Lemma ui_event_files ev w :
  ui_event ev = true -> files (apply_event ev w) = files w.
Proof. intros H. by destruct ev; try discriminate H. Qed.

Lemma replay_ui_files t w :
  Forall (fun ev => ui_event ev = true) t -> files (replay t w) = files w.
Proof.
  intros H. revert w. induction H as [|ev t Hev _ IH]; intros w; [done|].
  simpl. rewrite IH. by apply ui_event_files.
Qed.

Lemma count_app f t1 t2 : count f (t1 ++ t2) = (count f t1 + count f t2)%nat.
Proof. unfold count. by rewrite filter_app, length_app. Qed.

Lemma count_none (f g : Event -> bool) t :
  (forall ev, g ev = true -> f ev = false) ->
  Forall (fun ev => g ev = true) t -> count f t = 0%nat.
Proof.
  intros Hgf H. induction H as [|ev t Hev _ IH]; [done|].
  unfold count in *. rewrite filter_cons, (Hgf ev Hev).
  by rewrite decide_False.
Qed.

(** ** The shape of a run of [solve_recaptcha_v2_challenge] *)

Lemma switch_to_frame_inv el env h w r w' t :
  run (switch_to_frame el) env h w = (r, w', t) ->
  (r = Ok tt /\ w' = set_frames (el :: frames w) w /\
   t = [ESwitchFrame el (Ok tt)])
  \/ (exists e, r = Err e /\ w' = w /\ t = [ESwitchFrame el (Err e)]).
Proof.
  unfold run, switch_to_frame, call_result.
  destruct (env_switch_frame env h el) as [[]|e]; intros [= <- <- <-].
  - by left.
  - right. by exists e.
Qed.

Lemma solve_prologue_inv self iframe env h w r w' t :
  run (solve_prologue self iframe) env h w = (r, w', t) ->
  (exists e, r = Err e /\ w' = w /\ t = [ESwitchFrame iframe (Err e)])
  \/ (exists t1,
         t = ESwitchFrame iframe (Ok tt) :: t1 /\
         follows pipeline_event (set_frames (iframe :: frames w) w) w' t1).
Proof.
  unfold solve_prologue. intros E.
  apply bind_inv in E as [(a & w1 & t1 & t2 & E1 & E2 & ->)|(e & E1 & ->)].
  - apply switch_to_frame_inv in E1 as [(_ & -> & ->)|(e & ? & _)]; [|done].
    right. exists t2. split; [done|]. revert E2.
    generalize (h ++ [ESwitchFrame iframe (Ok ())]). intros h1 E2.
    assert (preserves pipeline_event
              (request_audio_mode;;
               _solve_audio_challenge (_language self);;
               submit_verify self)) as Hp.
    { footprint.
      - sub request_audio_mode_footprint.
      - apply solve_audio_challenge_footprint.
      - sub submit_verify_footprint. }
    eapply Hp; eauto.
  - apply switch_to_frame_inv in E1 as [(? & _)|(e' & [= <-] & -> & ->)];
      [done|].
    left. by exists e.
Qed.

Lemma pipeline_inner ev : pipeline_event ev = true -> inner_event ev = true.
Proof. intros H. unfold inner_event. by rewrite H, orb_true_r. Qed.

Lemma solve_inv self iframe env h w r w' t :
  run (solve_recaptcha_v2_challenge self iframe) env h w = (r, w', t) ->
  solve_exit iframe w r w' t.
Proof.
  unfold solve_recaptcha_v2_challenge. intros E.
  apply bind_inv in E as [(a & w1 & t1 & t2 & E1 & E2 & ->)|(e & E1 & ->)].
  - apply solve_prologue_inv in E1 as [(e & ? & _)|(t1' & -> & F1)]; [done|].
    apply (follows_weaken _ _ _ _ _ pipeline_inner) in F1.
    apply bind_inv in E2 as [(b & w2 & t3 & t4 & E2 & E3 & ->)|(e & E2 & ->)].
    + apply retry_loop_footprint in E2. injection E3 as <- <- <-.
      rewrite <- app_comm_cons, app_assoc.
      apply exit_returned. by eapply follows_app.
    + apply retry_loop_footprint in E2. rewrite <- app_comm_cons.
      apply exit_raised. by eapply follows_app.
  - apply solve_prologue_inv in E1 as [(e' & [= <-] & -> & ->)|(t1 & -> & F1)].
    + apply exit_not_entered.
    + apply exit_raised. by apply (follows_weaken _ _ _ _ _ pipeline_inner).
Qed.

Lemma inner_not_switch_parent ev :
  inner_event ev = true -> is_switch_parent ev = false.
Proof. by destruct ev. Qed.

(** C1 (as amended).  On normal return the last action of
    [solve_recaptcha_v2_challenge] is the switch to the parent frame, and
    the frame context is again the one the call started in.  When an
    exception propagates, no switch to the parent frame is performed: if
    the challenge frame was entered, the session is still inside it;
    otherwise the only event is the failed attempt to enter it. *)
Theorem solve_frame_context self iframe env h w r w' t :
  run (solve_recaptcha_v2_challenge self iframe) env h w = (r, w', t) ->
  match r with
  | Ok _ => frames w' = frames w /\ last t = Some ESwitchParentFrame
  | Err e =>
      count is_switch_parent t = 0%nat /\
      (frames w' = iframe :: frames w \/
       frames w' = frames w /\ t = [ESwitchFrame iframe (Err e)])
  end.
Proof.
  intros E. apply solve_inv in E. destruct E as [e|e w' t1 F|w1 t1 F].
  - split; [done|]. by right.
  - split.
    + change (ESwitchFrame iframe (Ok ()) :: t1)
        with ([ESwitchFrame iframe (Ok ())] ++ t1).
      rewrite count_app.
      rewrite (count_none is_switch_parent inner_event t1);
        [done | apply inner_not_switch_parent | apply F].
    + left. by rewrite (follows_inner_frames _ _ _ F).
  - split.
    + simpl. by rewrite (follows_inner_frames _ _ _ F).
    + rewrite app_comm_cons. apply last_snoc.
Qed.

Lemma solve_frame_context_witness :
  exists w' t,
    run (solve_recaptcha_v2_challenge solver3 9%N) env_solved [] w0
    = (Ok tt, w', t) /\
    frames w' = frames w0 /\ last t = Some ESwitchParentFrame.
Proof.
  eexists _, _. split; [vm_compute; reflexivity|].
  apply (solve_frame_context solver3 9%N env_solved [] w0 (Ok tt)).
  vm_compute. reflexivity.
Defined.

(** C1 (as stated) fails: when the download link does not show, the
    detection error propagates while the session is still inside the
    challenge frame, no switch to the parent frame having been made. *)
Lemma solve_frame_context_counterexample :
  exists w' t,
    run (solve_recaptcha_v2_challenge solver3 9%N) env_detected [] w0
    = (Err (RecaptchaException msg_detected), w', t) /\
    frames w0 = [] /\ frames w' = [9%N] /\
    count is_switch_parent t = 0%nat.
Proof. eexists _, _. split; [vm_compute; reflexivity|]. by vm_compute. Qed.

(** ** The transcription pipeline and the retry loop, step by step *)

Lemma call_result_inv {A} ask (ev : result A -> Event) eff env h w r w' t :
  run (call_result ask ev eff) env h w = (r, w', t) ->
  r = ask env h /\ t = [ev r] /\
  w' = match r with Ok a => eff a w | Err _ => w end.
Proof.
  unfold run, call_result. by destruct (ask env h); intros [= <- <- <-].
Qed.

Lemma tail_event_not_invocation ev :
  tail_event ev = true -> is_pipeline_invocation ev = false.
Proof.
  destruct ev; try done. unfold tail_event. simpl.
  rewrite orb_false_r. intros [_ H]%andb_true_iff.
  by apply negb_true_iff in H.
Qed.

Lemma pipeline_event_not_probe ev :
  pipeline_event ev = true -> is_probe ev = false.
Proof.
  destruct ev; try done. unfold pipeline_event. simpl.
  rewrite orb_false_r. destruct c, by_; try done.
  destruct (String.eqb_spec locator "rc-audiochallenge-tdownload-link")
    as [->|]; [done|].
  simpl. rewrite andb_true_r. by intros ?%negb_true_iff.
Qed.

Lemma solve_audio_challenge_inv language env h w r w' t :
  run (_solve_audio_challenge language) env h w = (r, w', t) ->
  exists res t1,
    t = link_event res :: t1 /\
    Forall (fun ev => tail_event ev = true) t1 /\
    match res with
    | Ok _ => True
    | Err e =>
        t1 = [] /\ w' = w /\
        r = Err (if is_TimeoutException e
                 then RecaptchaException msg_detected else e)
    end.
Proof.
  unfold _solve_audio_challenge. intros E.
  apply bind_inv in E as [(a & w1 & t1 & t2 & E1 & E2 & ->)|(e & E1 & ->)].
  - apply try_except_inv in E1
      as [(a' & E1 & [= <-])|(e & w2 & t3 & t4 & E1 & E3 & ->)].
    + apply call_result_inv in E1 as (Ha & -> & ->).
      exists (Ok a), t2. split; [done|]. split; [|done].
      revert E2. generalize (h ++ [link_event (Ok a)]). intros h1 E2.
      match type of E2 with
      | run ?m _ _ _ = _ =>
          assert (preserves tail_event m) as Hp
      end.
      { footprint. sub human_type_footprint. }
      eapply Hp; eauto.
    + by destruct (is_TimeoutException e).
  - apply try_except_inv in E1
      as [(a' & E1 & ?)|(e' & w2 & t3 & t4 & E1 & E3 & ->)]; [done|].
    apply call_result_inv in E1 as (He & -> & ->).
    exists (Err e'), []. split.
    + by destruct (is_TimeoutException e'); injection E3 as <- <- <-.
    + split; [done|].
      by destruct (is_TimeoutException e'); injection E3 as <- <- <-.
Qed.

Lemma solve_audio_challenge_count language env h w r w' t :
  run (_solve_audio_challenge language) env h w = (r, w', t) ->
  count is_pipeline_invocation t = 1%nat.
Proof.
  intros (res & t1 & -> & F & _)%solve_audio_challenge_inv.
  change (link_event res :: t1) with ([link_event res] ++ t1).
  rewrite count_app.
  by rewrite (count_none _ _ t1 tail_event_not_invocation F).
Qed.

Lemma retry_body_inv self i env h w r w' t :
  run (retry_body self i) env h w = (r, w', t) ->
  exists res t1,
    t = probe_event res :: t1 /\
    Forall (fun ev => pipeline_event ev = true) t1 /\
    match res with
    | Ok _ => r = Ok tt -> count is_pipeline_invocation t1 = 1%nat
    | Err e => t1 = [] /\ w' = w /\ r = Err e
    end.
Proof.
  unfold retry_body. intros E.
  apply bind_inv in E as [(a & w1 & t1 & t2 & E1 & E2 & ->)|(e & E1 & ->)].
  - apply call_result_inv in E1 as (Ha & -> & ->).
    exists (Ok a), t2. split; [done|].
    revert E2. generalize (h ++ [probe_event (Ok a)]). intros h1 E2.
    split.
    + match type of E2 with
      | run ?m _ _ _ = _ => assert (preserves pipeline_event m) as Hp
      end.
      { footprint. apply solve_audio_challenge_footprint. }
      eapply Hp; eauto.
    + intros ->.
      apply bind_inv in E2 as [(b & w2 & t3 & t4 & E0 & E2 & ->)|(? & _ & ?)];
        [|done].
      injection E0 as _ _ <-.
      apply bind_inv in E2 as [(c & w3 & t5 & t6 & E2 & E3 & ->)|(? & _ & ?)];
        [|done].
      apply solve_audio_challenge_count in E2.
      assert (preserves ui_event
                (second_verify_button ←
                   _wait_for_element By_ID "recaptcha-verify-button" 5;
                 _js_click second_verify_button)) as Hp by footprint.
      apply Hp in E3 as [_ F3].
      rewrite !count_app, E2.
      rewrite (count_none is_pipeline_invocation ui_event t6); [|
        intros ev Hev; apply tail_event_not_invocation; unfold tail_event;
        by rewrite Hev | done].
      done.
  - apply call_result_inv in E1 as (He & -> & ->).
    exists (Err e), []. done.
Qed.

Lemma is_probe_timeout_probe ev :
  is_probe_timeout ev = true -> is_probe ev = true.
Proof.
  destruct ev; try discriminate. destruct r; [discriminate|].
  by intros [? _]%andb_true_iff.
Qed.

Lemma pipeline_no_probe_timeout t (k : nat) ev :
  Forall (fun ev => pipeline_event ev = true) t ->
  t !! k = Some ev -> is_probe_timeout ev = true -> False.
Proof.
  intros F Hk Hev. rewrite Forall_lookup in F.
  apply is_probe_timeout_probe in Hev.
  apply F, pipeline_event_not_probe in Hk. congruence.
Qed.

Lemma completed_body_no_probe_timeout el t (k : nat) ev :
  Forall (fun ev => pipeline_event ev = true) t ->
  (probe_event (Ok el) :: t) !! k = Some ev ->
  is_probe_timeout ev = true -> False.
Proof.
  intros F Hk Hev. destruct k as [|k]; simpl in Hk.
  - by injection Hk as <-.
  - eapply pipeline_no_probe_timeout; eauto.
Qed.

(** Inside the retry loop a timed-out probe is the last event, and the
    loop ends normally. *)
Lemma retry_loop_break self iterations env h w r w' t (k : nat) ev :
  run (retry_loop self iterations) env h w = (r, w', t) ->
  t !! k = Some ev -> is_probe_timeout ev = true ->
  r = Ok tt /\ length t = S k.
Proof.
  revert h w t k.
  induction iterations as [|i rest IH]; intros h w t k E Hk Hev; simpl in E.
  - by injection E as <- <- <-.
  - apply bind_inv in E as [(rb & w1 & t1 & t2 & E1 & E2 & ->)|(e & E1 & _)];
      [|by apply try_inv in E1 as (? & _ & ?)].
    apply try_inv in E1 as (rb' & E1 & [= ->]).
    apply retry_body_inv in E1 as (res & t1' & -> & F & Hres).
    destruct rb' as [[]|e].
    + destruct res as [el|e]; [|by destruct Hres as (_ & _ & ?)].
      rewrite lookup_app in Hk.
      destruct ((probe_event (Ok el) :: t1') !! k) eqn:Hl.
      * injection Hk as ->. exfalso.
        eapply completed_body_no_probe_timeout; eauto.
      * apply lookup_ge_None in Hl.
        destruct (IH _ _ _ _ E2 Hk Hev) as [-> Hlen]. split; [done|].
        rewrite length_app, Hlen. lia.
    + assert (t2 = [] /\ (is_TimeoutException e = true -> r = Ok tt))
        as [-> Hr].
      { by destruct (is_TimeoutException e); injection E2 as <- <- <-. }
      rewrite app_nil_r in *.
      destruct res as [el|e'].
      * exfalso. eapply completed_body_no_probe_timeout; eauto.
      * destruct Hres as (-> & _ & [= ->]).
        destruct k as [|k]; [|done]. injection Hk as <-.
        apply andb_true_iff in Hev as [_ Hev]. by split; [apply Hr|].
Qed.

Lemma solve_run_entered self iframe env h w w1 tp :
  run (solve_prologue self iframe) env h w = (Ok tt, w1, tp) ->
  run (solve_recaptcha_v2_challenge self iframe) env h w =
  match run (retry_loop self (range (_max_retries self))) env (h ++ tp) w1
  with
  | (Ok _, w2, tl) =>
      (Ok tt, set_frames (tail (frames w2)) w2,
       tp ++ tl ++ [ESwitchParentFrame])
  | (Err e, w2, tl) => (Err e, w2, tp ++ tl)
  end.
Proof.
  intros E. unfold solve_recaptcha_v2_challenge.
  rewrite (bind_ok _ _ _ _ _ _ _ _ E), run_bind.
  by destruct (run (retry_loop _ _) _ _ _) as [[[[]|e] w2] tl].
Qed.

Lemma solve_run_not_entered self iframe env h w e w1 tp :
  run (solve_prologue self iframe) env h w = (Err e, w1, tp) ->
  run (solve_recaptcha_v2_challenge self iframe) env h w = (Err e, w1, tp).
Proof. intros E. unfold solve_recaptcha_v2_challenge. by apply bind_err. Qed.

Lemma prologue_no_probe_timeout self iframe env h w r w1 tp (k : nat) ev :
  run (solve_prologue self iframe) env h w = (r, w1, tp) ->
  tp !! k = Some ev -> is_probe_timeout ev = true -> False.
Proof.
  intros [(e & _ & _ & ->)|(t1 & -> & _ & F)]%solve_prologue_inv Hk Hev.
  - destruct k as [|k]; [|done]. by injection Hk as <-.
  - destruct k as [|k]; simpl in Hk; [by injection Hk as <-|].
    eapply pipeline_no_probe_timeout; eauto.
Qed.

(** C3.  In every run of [solve_recaptcha_v2_challenge], if some probe for
    the error indicator times out (event number [k] of the run), then the
    call returns normally and the only thing done after that probe is the
    switch back to the parent frame: no further run of the transcription
    pipeline and no further click. *)
Theorem solve_stops_when_indicator_absent
    self iframe env h w r w' t (k : nat) ev :
  run (solve_recaptcha_v2_challenge self iframe) env h w = (r, w', t) ->
  t !! k = Some ev -> is_probe_timeout ev = true ->
  r = Ok tt /\ drop (S k) t = [ESwitchParentFrame] /\
  count is_pipeline_invocation (drop (S k) t) = 0%nat /\
  count is_click (drop (S k) t) = 0%nat.
Proof.
  intros E Hk Hev.
  cut (r = Ok tt /\ drop (S k) t = [ESwitchParentFrame]).
  { intros [-> ->]. done. }
  destruct (run (solve_prologue self iframe) env h w) as [[[[]|e] w1] tp]
    eqn:Ep.
  - rewrite (solve_run_entered _ _ _ _ _ _ _ Ep) in E.
    destruct (run (retry_loop _ _) _ _ _) as [[rl w2] tl] eqn:El.
    assert (exists j : nat, tl !! j = Some ev /\ k = (length tp + j)%nat)
      as (j & Hj & ->).
    { destruct rl as [[]|e]; injection E as <- <- <-;
        rewrite lookup_app in Hk;
        (destruct (tp !! k) eqn:Hl;
         [injection Hk as ->; exfalso;
          eapply prologue_no_probe_timeout; eauto|]);
        apply lookup_ge_None in Hl.
      - rewrite lookup_app in Hk.
        destruct (tl !! (k - length tp)%nat) eqn:Hl2.
        + injection Hk as ->. exists (k - length tp)%nat. split; [done|lia].
        + destruct (k - length tp - length tl)%nat as [|n]; [|done].
          by injection Hk as <-.
      - exists (k - length tp)%nat. split; [done|lia]. }
    destruct (retry_loop_break _ _ _ _ _ _ _ _ _ _ El Hj Hev) as [-> Hlen].
    injection E as <- <- <-. split; [done|].
    rewrite app_assoc. apply drop_app_length'. rewrite length_app. lia.
  - rewrite (solve_run_not_entered _ _ _ _ _ _ _ _ Ep) in E.
    injection E as <- <- <-. exfalso.
    eapply prologue_no_probe_timeout; eauto.
Qed.

Lemma solve_stops_when_indicator_absent_witness :
  exists w' t,
    run (solve_recaptcha_v2_challenge solver3 9%N) env_solved [] w0
    = (Ok tt, w', t) /\
    drop 45 t = [ESwitchParentFrame] /\
    count is_pipeline_invocation (drop 45 t) = 0%nat /\
    count is_click (drop 45 t) = 0%nat.
Proof.
  eexists _, _. split; [vm_compute; reflexivity|].
  eapply proj2.
  eapply (solve_stops_when_indicator_absent solver3 9%N env_solved [] w0
            _ _ _ 44%nat);
    vm_compute; reflexivity.
Defined.

Lemma is_probe_present_probe ev :
  is_probe_present ev = true -> is_probe ev = true.
Proof. destruct ev; try discriminate. by destruct r. Qed.

Lemma pipeline_event_not_probe_present ev :
  pipeline_event ev = true -> is_probe_present ev = false.
Proof.
  intros H%pipeline_event_not_probe.
  destruct (is_probe_present ev) eqn:E; [|done].
  apply is_probe_present_probe in E. congruence.
Qed.

Lemma count_cons f ev t :
  count f (ev :: t) = ((if f ev then 1 else 0) + count f t)%nat.
Proof.
  unfold count. rewrite filter_cons.
  destruct (f ev); [by rewrite decide_True | by rewrite decide_False].
Qed.

Lemma retry_loop_exhausted self iterations env h w :
  retries_complete self env iterations h w ->
  exists w' t,
    run (retry_loop self iterations) env h w
    = (Err (RecaptchaException msg_exhausted), w', t) /\
    count is_pipeline_invocation t = length iterations /\
    count is_probe t = length iterations /\
    count is_probe_present t = length iterations.
Proof.
  revert h w. induction iterations as [|i rest IH]; intros h w H; simpl in *.
  - by exists w, [].
  - destruct (run (retry_body self i) env h w) as [[[[]|e] w1] t1] eqn:E1;
      [|done].
    destruct (IH _ _ H) as (w' & t2 & E2 & C1 & C2 & C3).
    exists w', (t1 ++ t2). split.
    + rewrite run_bind, run_try, E1. cbv beta iota. by rewrite E2.
    + apply retry_body_inv in E1 as (res & t1' & -> & F & Hres).
      destruct res as [el|e]; [|by destruct Hres as (_ & _ & ?)].
      rewrite !count_app, !count_cons, C1, C2, C3, (Hres eq_refl).
      rewrite (count_none is_probe pipeline_event t1'
                 pipeline_event_not_probe F).
      by rewrite (count_none is_probe_present pipeline_event t1'
                    pipeline_event_not_probe_present F).
Qed.

Lemma range_length n : length (range n) = Z.to_nat n.
Proof. unfold range. by rewrite length_map, length_seq. Qed.

Lemma solve_prologue_counts self iframe env h w w1 tp :
  run (solve_prologue self iframe) env h w = (Ok tt, w1, tp) ->
  count is_pipeline_invocation tp = 1%nat /\ count is_probe tp = 0%nat /\
  count is_probe_present tp = 0%nat.
Proof.
  intros E. split.
  - unfold solve_prologue in E.
    apply bind_inv in E as [(a & w2 & t1 & t2 & E1 & E2 & ->)|(? & _ & ?)];
      [|done].
    apply switch_to_frame_inv in E1 as [(_ & _ & ->)|(? & ? & _)]; [|done].
    apply bind_inv in E2 as [(b & w3 & t3 & t4 & E2 & E3 & ->)|(? & _ & ?)];
      [|done].
    apply bind_inv in E3 as [(c & w4 & t5 & t6 & E3 & E4 & ->)|(? & _ & ?)];
      [|done].
    apply request_audio_mode_footprint in E2 as [_ F2].
    apply solve_audio_challenge_count in E3.
    apply submit_verify_footprint in E4 as [_ F4].
    assert (forall ev, ui_event ev = true -> is_pipeline_invocation ev = false)
      as Hui.
    { intros ev Hev. apply tail_event_not_invocation. unfold tail_event.
      by rewrite Hev. }
    rewrite !count_app, E3.
    by rewrite (count_none _ _ t3 Hui F2), (count_none _ _ t6 Hui F4).
  - apply solve_prologue_inv in E as [(? & ? & _)|(t1 & -> & _ & F)]; [done|].
    rewrite !count_cons. simpl.
    by rewrite (count_none is_probe pipeline_event t1
                  pipeline_event_not_probe F),
      (count_none is_probe_present pipeline_event t1
         pipeline_event_not_probe_present F).
Qed.

(** C2 (as amended).  If every one of the [max_retries] iterations of the
    retry loop runs to completion (the probe finds the error indicator,
    and the re-run of the pipeline and the renewed click on the verify
    button raise nothing), then [solve_recaptcha_v2_challenge] raises
    [RecaptchaException('Failed to solve captcha after maximum retry
    attempts')]; the run makes exactly [max_retries] pipeline invocations
    beyond the initial one and [max_retries] probes, each of which found
    the indicator. *)
Theorem solve_retries_exhausted self iframe env h w w1 tp :
  run (solve_prologue self iframe) env h w = (Ok tt, w1, tp) ->
  retries_complete self env (range (_max_retries self)) (h ++ tp) w1 ->
  exists w' t,
    run (solve_recaptcha_v2_challenge self iframe) env h w
    = (Err (RecaptchaException msg_exhausted), w', t) /\
    count is_pipeline_invocation t = S (Z.to_nat (_max_retries self)) /\
    count is_probe t = Z.to_nat (_max_retries self) /\
    count is_probe_present t = Z.to_nat (_max_retries self).
Proof.
  intros Ep Hc.
  destruct (retry_loop_exhausted _ _ _ _ _ Hc) as (w' & tl & El & C1 & C2 & C3).
  exists w', (tp ++ tl). rewrite (solve_run_entered _ _ _ _ _ _ _ Ep), El.
  split; [done|].
  destruct (solve_prologue_counts _ _ _ _ _ _ _ Ep) as (P1 & P2 & P3).
  rewrite !count_app, C1, C2, C3, P1, P2, P3, range_length. done.
Qed.

Lemma solve_retries_exhausted_witness :
  exists w' t,
    run (solve_recaptcha_v2_challenge solver3 9%N) env_always_error [] w0
    = (Err (RecaptchaException msg_exhausted), w', t) /\
    count is_pipeline_invocation t = 4%nat /\
    count is_probe t = 3%nat /\
    count is_probe_present t = 3%nat.
Proof.
  eapply (solve_retries_exhausted solver3 9%N env_always_error [] w0).
  - vm_compute. reflexivity.
  - vm_compute. exact I.
Defined.

(** C2 (as stated) fails: with [max_retries = 1] the single probe finds
    the error indicator, the re-run of the pipeline hits a service error,
    and the call fails with that error instead of the retries-exhausted
    one: the loop has a second failure exit. *)
Lemma solve_retries_exhausted_counterexample :
  exists w' t,
    run (solve_recaptcha_v2_challenge solver1 9%N) env_quota_on_retry [] w0
    = (Err (RecaptchaException
              "Speech recognition service error: quota exceeded"), w', t) /\
    _max_retries solver1 = 1 /\
    count is_probe t = 1%nat /\ count is_probe_present t = 1%nat /\
    count is_pipeline_invocation t = 2%nat.
Proof. eexists _, _. split; [vm_compute; reflexivity|]. by vm_compute. Qed.

Lemma range_nonpositive n : n <= 0 -> range n = [].
Proof. intros H. unfold range. by replace (Z.to_nat n) with 0%nat by lia. Qed.

(** C10.  With [max_retries = 0] (or below) the retry loop has no
    iteration: no run probes the error indicator, every run whose steps
    before the loop succeed raises [RecaptchaException('Failed to solve
    captcha after maximum retry attempts')], and no run returns normally;
    so a normal return requires [max_retries >= 1]. *)
Theorem solve_without_retries self iframe env h w r w' t :
  run (solve_recaptcha_v2_challenge self iframe) env h w = (r, w', t) ->
  _max_retries self <= 0 ->
  count is_probe t = 0%nat /\ r <> Ok tt /\
  (forall w1 tp,
      run (solve_prologue self iframe) env h w = (Ok tt, w1, tp) ->
      r = Err (RecaptchaException msg_exhausted)).
Proof.
  intros E Hn.
  destruct (run (solve_prologue self iframe) env h w) as [[[[]|e] w1] tp]
    eqn:Ep.
  - rewrite (solve_run_entered _ _ _ _ _ _ _ Ep), (range_nonpositive _ Hn) in E.
    simpl in E. injection E as ? ? ?. subst r w' t. rewrite app_nil_r.
    destruct (solve_prologue_counts _ _ _ _ _ _ _ Ep) as (_ & P2 & _).
    by repeat split.
  - rewrite (solve_run_not_entered _ _ _ _ _ _ _ _ Ep) in E.
    injection E as <- <- <-.
    apply solve_prologue_inv in Ep as [(? & _ & _ & ->)|(t1 & -> & _ & F)].
    + by repeat split.
    + rewrite count_cons. simpl.
      rewrite (count_none is_probe pipeline_event t1
                 pipeline_event_not_probe F).
      by repeat split.
Qed.

Lemma solve_without_retries_witness :
  exists w' t,
    run (solve_recaptcha_v2_challenge solver0 9%N) env_solved [] w0
    = (Err (RecaptchaException msg_exhausted), w', t) /\
    count is_probe t = 0%nat /\
    Err (RecaptchaException msg_exhausted) <> Ok tt /\
    (forall w1 tp,
        run (solve_prologue solver0 9%N) env_solved [] w0 = (Ok tt, w1, tp) ->
        @Err unit (RecaptchaException msg_exhausted)
        = Err (RecaptchaException msg_exhausted)).
Proof.
  eexists _, _. split; [vm_compute; reflexivity|].
  eapply (solve_without_retries solver0 9%N env_solved [] w0).
  - vm_compute. reflexivity.
  - simpl. lia.
Defined.

(** ** Events after which a run cannot go on *)

Lemma stops_bind {A B} fatal e0 (m : M A) (k : A -> M B) :
  stops fatal e0 m -> (forall a, stops fatal e0 (k a)) ->
  stops fatal e0 (m ≫= k).
Proof.
  intros Hm Hk env h w r w' t n ev E Hn Hev.
  apply bind_inv in E as [(a & w1 & t1 & t2 & E1 & E2 & ->)|(e & E1 & ->)].
  - rewrite lookup_app in Hn. destruct (t1 !! n) eqn:Hl.
    + injection Hn as ->. by destruct (Hm _ _ _ _ _ _ _ _ E1 Hl Hev).
    + apply lookup_ge_None in Hl.
      destruct (Hk _ _ _ _ _ _ _ _ _ E2 Hn Hev) as [-> Hlen].
      split; [done|]. rewrite length_app, Hlen. lia.
  - destruct (Hm _ _ _ _ _ _ _ _ E1 Hn Hev) as [[= ->] Hlen]. by split.
Qed.

Lemma stops_footprint {A} fatal e0 (f : Event -> bool) (m : M A) :
  (forall ev, f ev = true -> fatal ev = false) ->
  preserves f m -> stops fatal e0 m.
Proof.
  intros Hf Hm env h w r w' t n ev E Hn Hev.
  apply Hm in E as [_ F]. rewrite Forall_lookup in F.
  apply F, Hf in Hn. congruence.
Qed.

Lemma stops_retry_loop fatal e0 self iterations :
  is_TimeoutException e0 = false ->
  (forall i, stops fatal e0 (retry_body self i)) ->
  stops fatal e0 (retry_loop self iterations).
Proof.
  intros He0 Hb. induction iterations as [|i rest IH];
    intros env h w r w' t n ev E Hn Hev; simpl in E.
  - by injection E as <- <- <-.
  - apply bind_inv in E as [(rb & w1 & t1 & t2 & E1 & E2 & ->)|(e & E1 & _)];
      [|by apply try_inv in E1 as (? & _ & ?)].
    apply try_inv in E1 as (rb' & E1 & [= ->]).
    rewrite lookup_app in Hn. destruct (t1 !! n) eqn:Hl.
    + injection Hn as ->.
      destruct (Hb _ _ _ _ _ _ _ _ _ E1 Hl Hev) as [-> Hlen].
      rewrite He0 in E2. injection E2 as <- <- <-.
      by rewrite app_nil_r.
    + apply lookup_ge_None in Hl. destruct rb' as [[]|e].
      * destruct (IH _ _ _ _ _ _ _ _ E2 Hn Hev) as [-> Hlen].
        split; [done|]. rewrite length_app, Hlen. lia.
      * by destruct (is_TimeoutException e); injection E2 as <- <- <-.
Qed.

Lemma not_invocation_not_link_timeout ev :
  is_pipeline_invocation ev = false -> is_link_timeout ev = false.
Proof.
  destruct ev; try done. destruct r; [done|]. simpl. by intros ->.
Qed.

Lemma ui_event_not_link_timeout ev :
  ui_event ev = true -> is_link_timeout ev = false.
Proof.
  intros H. apply not_invocation_not_link_timeout, tail_event_not_invocation.
  unfold tail_event. by rewrite H.
Qed.

Lemma solve_audio_challenge_stops language :
  stops is_link_timeout detected (_solve_audio_challenge language).
Proof.
  intros env h w r w' t n ev E Hn Hev.
  apply solve_audio_challenge_inv in E as (res & t1 & -> & F & Hres).
  destruct n as [|n]; simpl in Hn.
  - injection Hn as <-. destruct res as [|e]; [done|].
    destruct Hres as (-> & _ & ->).
    apply andb_true_iff in Hev as [_ ->]. done.
  - rewrite Forall_lookup in F.
    apply F, tail_event_not_invocation, not_invocation_not_link_timeout in Hn.
    congruence.
Qed.

Lemma retry_body_stops self i :
  stops is_link_timeout detected (retry_body self i).
Proof.
  unfold retry_body.
  apply stops_bind; [|intros _].
  { apply (stops_footprint _ _ is_probe); [|footprint].
    intros ev H. apply not_invocation_not_link_timeout.
    destruct ev; try done. destruct c, by_; try done. simpl in *.
    destruct (String.eqb_spec locator "rc-audiochallenge-error-message")
      as [->|]; done. }
  apply stops_bind; [|intros _].
  { apply (stops_footprint _ _ ui_event _ ui_event_not_link_timeout).
    footprint. }
  apply stops_bind; [apply solve_audio_challenge_stops|intros _].
  apply (stops_footprint _ _ ui_event _ ui_event_not_link_timeout). footprint.
Qed.

Lemma solve_prologue_stops self iframe :
  stops is_link_timeout detected (solve_prologue self iframe).
Proof.
  unfold solve_prologue.
  apply stops_bind; [|intros _].
  { apply (stops_footprint _ _ (fun ev => negb (is_link_timeout ev)));
      [by intros ev ?%negb_true_iff | footprint]. }
  apply stops_bind; [|intros _].
  { apply (stops_footprint _ _ ui_event _ ui_event_not_link_timeout).
    apply request_audio_mode_footprint. }
  apply stops_bind; [apply solve_audio_challenge_stops|intros _].
  apply (stops_footprint _ _ ui_event _ ui_event_not_link_timeout).
  apply submit_verify_footprint.
Qed.

Lemma solve_stops self iframe :
  stops is_link_timeout detected (solve_recaptcha_v2_challenge self iframe).
Proof.
  unfold solve_recaptcha_v2_challenge.
  apply stops_bind; [apply solve_prologue_stops|intros _].
  apply stops_bind; [|intros _].
  - apply stops_retry_loop; [done|]. apply retry_body_stops.
  - apply (stops_footprint _ _ (fun ev => negb (is_link_timeout ev)));
      [by intros ev ?%negb_true_iff | footprint].
Qed.

(** ** The opening of a run: the audio-mode control *)

Lemma request_audio_mode_shape env h w r w' t :
  run request_audio_mode env h w = (r, w', t) ->
  exists res,
    t !! 0%nat = Some (audio_wait_event res) /\
    (forall m, res = Err (TimeoutException m) ->
       r = Ok tt /\ t = [audio_wait_event res; EPrint msg_audio_not_found]) /\
    (forall el, res = Ok el ->
       exists rc,
         t !! 1%nat = Some (click_event el rc) /\
         (rc = Ok tt ->
          r = Ok tt /\
          t = [audio_wait_event res; click_event el (Ok tt);
               EPrint "[INFO] Switched to audio challenge";
               ESleepUniform 2 3])).
Proof.
  unfold run, request_audio_mode, try_except, mbind, M_bind, bind,
    _wait_for_element, wait_until, _js_click, execute_script, call_result,
    print, sleep_uniform, emit.
  destruct (env_wait env h _ _ _ _) as [el|e].
  - destruct (env_execute_script env _ _ el) as [[]|e].
    + intros [= <- <- <-]. exists (Ok el). split; [done|]. split; [done|].
      intros ? [= <-]. by exists (Ok tt).
    + destruct (is_TimeoutException e); intros [= <- <- <-];
        exists (Ok el); (split; [done|]); (split; [done|]);
        intros ? [= <-]; by exists (Err e).
  - destruct e; intros [= <- <- <-]; eexists; (split; [done|]);
      (split; [|done]); done.
Qed.

Lemma solve_prologue_opening self iframe env h w r w' t :
  run (solve_prologue self iframe) env h w = (r, w', t) ->
  (exists e, t = [ESwitchFrame iframe (Err e)])
  \/ (exists ra wa ta rest,
         run request_audio_mode env (h ++ [ESwitchFrame iframe (Ok tt)])
           (set_frames (iframe :: frames w) w) = (ra, wa, ta) /\
         t = ESwitchFrame iframe (Ok tt) :: ta ++ rest /\
         (ra = Ok tt -> exists res, rest !! 0%nat = Some (link_event res))).
Proof.
  unfold solve_prologue. intros E.
  apply bind_inv in E as [(a & w1 & t1 & t2 & E1 & E2 & ->)|(e & E1 & ->)].
  - apply switch_to_frame_inv in E1 as [(_ & -> & ->)|(e & ? & _)]; [|done].
    right.
    apply bind_inv in E2 as [(b & w2 & t3 & t4 & E2 & E3 & ->)|(e & E2 & ->)].
    + exists (Ok b), w2, t3, t4. split; [done|]. split; [done|]. intros _.
      apply bind_inv in E3
        as [(c & w3 & t5 & t6 & E3 & _ & ->)|(e & E3 & ->)];
        apply solve_audio_challenge_inv in E3 as (res & ? & -> & _);
        by exists res.
    + exists (Err e), w', t2, []. by rewrite app_nil_r.
  - apply switch_to_frame_inv in E1 as [(? & _)|(e' & _ & _ & ->)]; [done|].
    left. by exists e'.
Qed.

Lemma solve_opening self iframe env h w r w' t :
  run (solve_recaptcha_v2_challenge self iframe) env h w = (r, w', t) ->
  (exists e, t = [ESwitchFrame iframe (Err e)])
  \/ (exists ra wa ta rest,
         run request_audio_mode env (h ++ [ESwitchFrame iframe (Ok tt)])
           (set_frames (iframe :: frames w) w) = (ra, wa, ta) /\
         t = ESwitchFrame iframe (Ok tt) :: ta ++ rest /\
         (ra = Ok tt -> exists res, rest !! 0%nat = Some (link_event res))).
Proof.
  unfold solve_recaptcha_v2_challenge. intros E.
  apply bind_inv in E as [(a & w1 & t1 & t2 & E1 & _ & ->)|(e & E1 & ->)];
    [|by eapply solve_prologue_opening].
  pose proof (solve_prologue_inv _ _ _ _ _ _ _ _ E1)
    as [(? & ? & _)|(? & Ht1 & _)]; [done|].
  apply solve_prologue_opening in E1
    as [(e & ->)|(ra & wa & ta & rest & E1 & -> & Hrest)]; [done|].
  right. exists ra, wa, ta, (rest ++ t2). split; [done|].
  split; [by rewrite <- app_comm_cons, <- app_assoc|].
  intros Hra. destruct (Hrest Hra) as (res & Hres). exists res.
  by apply lookup_app_l_Some.
Qed.

(** C8.  The two timeouts before the verify step are treated differently.
    In every run of [solve_recaptcha_v2_challenge]: if the wait for the
    audio-mode control (the event after entering the frame) times out,
    the solver logs it and goes on to the transcription pipeline, whose
    first action is the wait for the download link; if a wait for the
    download link times out, that is the last event of the run, which
    raises [RecaptchaException('Google has detected automated queries.
    Try again later.')].  The same holds of the pipeline taken alone. *)
Theorem audio_control_and_download_link_timeouts
    self iframe env h w r w' t :
  run (solve_recaptcha_v2_challenge self iframe) env h w = (r, w', t) ->
  (forall m,
      t !! 1%nat = Some (audio_wait_event (Err (TimeoutException m))) ->
      t !! 2%nat = Some (EPrint msg_audio_not_found) /\
      exists res, t !! 3%nat = Some (link_event res)) /\
  (forall (k : nat) m,
      t !! k = Some (link_event (Err (TimeoutException m))) ->
      r = Err (RecaptchaException msg_detected) /\ length t = S k) /\
  (forall language h1 w1 rp wp tp m,
      run (_solve_audio_challenge language) env h1 w1 = (rp, wp, tp) ->
      tp !! 0%nat = Some (link_event (Err (TimeoutException m))) ->
      rp = Err (RecaptchaException msg_detected) /\ wp = w1 /\
      tp = [link_event (Err (TimeoutException m))]).
Proof.
  intros E. split; [|split].
  - intros m H1.
    apply solve_opening in E
      as [(e & ->)|(ra & wa & ta & rest & Ea & -> & Hrest)]; [done|].
    apply request_audio_mode_shape in Ea as (res & H0 & Hto & _).
    simpl in H1. destruct ta as [|ev0 ta]; [done|].
    injection H0 as ->. simpl in H1. injection H1 as ->.
    destruct (Hto _ eq_refl) as [-> [= ->]].
    split; [done|]. destruct (Hrest eq_refl) as (res & Hres). by exists res.
  - intros k m Hk. by eapply (solve_stops self iframe).
  - intros language h1 w1 rp wp tp m Ep H0.
    apply solve_audio_challenge_inv in Ep as (res & t1 & -> & _ & Hres).
    injection H0 as ->. by destruct Hres as (-> & -> & ->).
Qed.

Lemma audio_control_and_download_link_timeouts_witness :
  exists w' t,
    run (solve_recaptcha_v2_challenge solver3 9%N) env_nothing_found [] w0
    = (Err (RecaptchaException msg_detected), w', t) /\
    (t !! 2%nat = Some (EPrint msg_audio_not_found) /\
     exists res, t !! 3%nat = Some (link_event res)) /\
    length t = 4%nat /\
    run (_solve_audio_challenge "en-US") env_nothing_found [] w0
    = (Err (RecaptchaException msg_detected), w0,
       [link_event (Err (TimeoutException timeout_msg))]).
Proof.
  eexists _, _. split; [vm_compute; reflexivity|].
  destruct (audio_control_and_download_link_timeouts solver3 9%N
              env_nothing_found [] w0 _ _ _ eq_refl) as (Ha & Hb & Hc).
  split; [|split].
  - apply (Ha timeout_msg). vm_compute. reflexivity.
  - apply (Hb 3%nat timeout_msg). vm_compute. reflexivity.
  - destruct (run (_solve_audio_challenge "en-US") env_nothing_found [] w0)
      as [[rp wp] tp] eqn:Ep.
    destruct (Hc "en-US" [] w0 rp wp tp timeout_msg Ep) as (-> & -> & ->);
      [|reflexivity].
    vm_compute in Ep. by injection Ep as _ _ <-.
Defined.

Lemma standard_checkbox_delay_classified env h w :
  Forall (fun ev => is_checkbox_delay ev = true)
    (snd (run (delay_after_click_checkbox StandardDelayConfig) env h w)).
Proof. by repeat constructor. Qed.

Lemma inner_not_checkbox_delay ev :
  inner_event ev = true -> is_checkbox_delay ev = false.
Proof.
  destruct ev; try done. unfold inner_event, pipeline_event. simpl.
  rewrite orb_false_r. by intros ?%negb_true_iff.
Qed.

(** C9 (as amended).  In every run of [solve_recaptcha_v2_challenge],
    whatever the configured delay policy: if the audio-mode control is
    found and clicked, the pause that follows is the inline
    [time.sleep(random.uniform(2, 3))], after which the transcription
    pipeline starts; and the run contains no pause of the policy's
    after-checkbox-click operation (1.5 to 3.0). *)
Theorem audio_mode_pause_is_inline self iframe env h w r w' t :
  run (solve_recaptcha_v2_challenge self iframe) env h w = (r, w', t) ->
  count is_checkbox_delay t = 0%nat /\
  (forall el,
      t !! 1%nat = Some (audio_wait_event (Ok el)) ->
      t !! 2%nat = Some (click_event el (Ok tt)) ->
      t !! 3%nat = Some (EPrint "[INFO] Switched to audio challenge") /\
      t !! 4%nat = Some (ESleepUniform 2 3) /\
      exists res, t !! 5%nat = Some (link_event res)).
Proof.
  intros E. split.
  - apply solve_inv in E. destruct E as [e|e w' t1 [_ F]|w1 t1 [_ F]].
    + done.
    + rewrite count_cons. simpl.
      by rewrite (count_none _ _ t1 inner_not_checkbox_delay F).
    + rewrite count_cons, count_app. simpl.
      by rewrite (count_none _ _ t1 inner_not_checkbox_delay F).
  - intros el H1 H2.
    apply solve_opening in E
      as [(e & ->)|(ra & wa & ta & rest & Ea & -> & Hrest)]; [done|].
    apply request_audio_mode_shape in Ea as (res & H0 & _ & Hok).
    simpl in H1, H2. destruct ta as [|ev0 ta]; [done|].
    injection H0 as ->. simpl in H1, H2. injection H1 as ->.
    destruct (Hok _ eq_refl) as (rc & H1 & Hrc).
    simpl in H1. destruct ta as [|ev1 ta]; [done|].
    injection H1 as ->. injection H2 as ->.
    destruct (Hrc eq_refl) as [-> [= ->]].
    split; [done|]. split; [done|].
    destruct (Hrest eq_refl) as (res & Hres). by exists res.
Qed.

Lemma audio_mode_pause_is_inline_witness :
  exists w' t,
    run (solve_recaptcha_v2_challenge solver3 9%N) env_solved [] w0
    = (Ok tt, w', t) /\
    count is_checkbox_delay t = 0%nat /\
    t !! 3%nat = Some (EPrint "[INFO] Switched to audio challenge") /\
    t !! 4%nat = Some (ESleepUniform 2 3) /\
    exists res, t !! 5%nat = Some (link_event res).
Proof.
  eexists _, _. split; [vm_compute; reflexivity|].
  destruct (audio_mode_pause_is_inline solver3 9%N env_solved [] w0
              _ _ _ eq_refl) as (Hc & Hp).
  split; [exact Hc|].
  apply (Hp 5%N); vm_compute; reflexivity.
Defined.

(** C9 (as stated) fails: with the policy that never pauses, the pause
    after the click on the audio-mode control is still there, and it is
    the inline one (2 to 3), not the policy's (1.5 to 3.0). *)
Lemma audio_mode_pause_is_inline_counterexample :
  exists w' t,
    run (solve_recaptcha_v2_challenge solver_no_delay 9%N) env_solved [] w0
    = (Ok tt, w', t) /\
    run (delay_after_click_checkbox (_delay_config solver_no_delay))
      env_solved [] w0 = (Ok tt, w0, []) /\
    t !! 2%nat = Some (click_event 5%N (Ok tt)) /\
    t !! 4%nat = Some (ESleepUniform 2 3) /\
    is_checkbox_delay (ESleepUniform 2 3) = false.
Proof. eexists _, _. split; [vm_compute; reflexivity|]. by vm_compute. Qed.

(** ** The status probe *)



(** ** Inside the transcription pipeline *)

Lemma remove_step path env h w r w' t :
  run (if bool_decide (path ∈ files w) then
         try_except (os_remove path)
           (fun e =>
              print ("[WARN] Could not remove temp file " +:+ path +:+ ": "
                     +:+ exn_str e))
       else mret tt) env h w = (r, w', t) ->
  r = Ok tt /\ files w' ⊆ files w /\
  (count is_failed_remove t = 0%nat -> path ∉ files w').
Proof.
  unfold run, try_except, os_remove, call_result, print, emit, mret, M_ret,
    ret.
  destruct (bool_decide_reflect (path ∈ files w)) as [Hin|Hout].
  - destruct (env_remove env _ _) as [[]|e]; intros [= <- <- <-].
    + split; [done|]. simpl. split.
      * intros x [Hx _]%elem_of_difference. exact Hx.
      * intros _ [_ Hp]%elem_of_difference. apply Hp.
        by apply elem_of_singleton.
    + by repeat split.
  - intros [= <- <- <-]. by split.
Qed.

Lemma cleanup_spec tmp_files env h w r w' t :
  run (cleanup tmp_files) env h w = (r, w', t) ->
  r = Ok tt /\ files w' ⊆ files w /\
  (count is_failed_remove t = 0%nat ->
   forall path, path ∈ tmp_files -> path ∉ files w').
Proof.
  revert h w r w' t.
  induction tmp_files as [|p rest IH]; intros h w r w' t E; simpl in E.
  - injection E as <- <- <-. split; [done|]. split; [done|].
    intros _ path Hp. by apply elem_of_nil in Hp.
  - apply bind_inv in E as [(b & w0' & t0 & t' & E0 & E & ->)|(e & E0 & _)];
      [|done].
    injection E0 as <- <- <-.
    apply bind_inv in E as [(u & w1 & t1 & t2 & E1 & E2 & ->)|(e & E1 & _)];
      [|by apply remove_step in E1 as (? & _)].
    apply remove_step in E1 as (_ & S1 & R1).
    apply IH in E2 as (-> & S2 & R2).
    split; [done|]. split; [by etrans|].
    simpl. rewrite count_app. intros Hc path [->|Hp]%elem_of_cons.
    + assert (p ∉ files w1) as Hp by (apply R1; lia).
      intros Hin. apply Hp. by apply S2.
    + apply R2; [lia|done].
Qed.

Lemma solve_audio_challenge_body language env h w r w' t :
  run (_solve_audio_challenge language) env h w = (r, w', t) ->
  (exists e e', t = [link_event (Err e)] /\ w' = w /\ r = Err e')
  \/ (exists el d x h1 rb wb tb h2 wc tc h3 rest,
         t = link_event (Ok el) :: EGetTempDir d :: EUuid4 x
             :: tb ++ tc ++ rest /\
         run (transcribe el (mp3_path d x) (wav_path d x) language) env h1 w
         = (rb, wb, tb) /\
         run (cleanup [mp3_path d x; wav_path d x]) env h2 wb
         = (Ok tt, wc, tc) /\
         match rb with
         | Ok text => run (enter_text text) env h3 wc = (r, w', rest)
         | Err e => r = Err e /\ w' = wc /\ rest = []
         end).
Proof.
  unfold _solve_audio_challenge. intros E.
  apply bind_inv in E as [(el & w1 & t1 & t2 & E1 & E2 & ->)|(e & E1 & ->)].
  - apply try_except_inv in E1
      as [(a' & E1 & [= <-])|(e & w2 & t3 & t4 & _ & E3 & _)];
      [|by destruct (is_TimeoutException e)].
    apply call_result_inv in E1 as (_ & -> & ->).
    apply bind_inv in E2 as [(d & w2 & t3 & t4 & E2 & E3 & ->)|(e & E2 & _)];
      [|done].
    injection E2 as <- <- <-. revert E3.
    set (d := env_gettempdir env _). intros E3.
    apply bind_inv in E3 as [(x & w3 & t5 & t6 & E3 & E4 & ->)|(e & E3 & _)];
      [|done].
    injection E3 as <- <- <-. revert E4.
    set (x := env_uuid4_hex env _). intros E4.
    right. exists el, d, x.
    apply bind_inv in E4 as [(text & w4 & t7 & t8 & E4 & E5 & ->)|(e & E4 & ->)].
    + apply try_finally_inv in E4
        as (rb & wb & tb & rf & tc & Eb & Ec & -> & Hr).
      pose proof (cleanup_spec _ _ _ _ _ _ _ Ec) as (-> & _).
      subst rb. eexists _, (Ok text), wb, tb, _, w4, tc, _, t8.
      split; [by rewrite <- !app_assoc|]. by repeat split.
    + apply try_finally_inv in E4
        as (rb & wb & tb & rf & tc & Eb & Ec & -> & Hr).
      pose proof (cleanup_spec _ _ _ _ _ _ _ Ec) as (-> & _).
      subst rb. eexists _, (Err e), wb, tb, _, w', tc, [], [].
      split; [by rewrite !app_nil_r|]. by repeat split.
  - apply try_except_inv in E1
      as [(a' & _ & ?)|(e' & w2 & t3 & t4 & E1 & E3 & ->)]; [done|].
    apply call_result_inv in E1 as (_ & -> & ->).
    left. exists e', e.
    by destruct (is_TimeoutException e'); injection E3 as _ <- <-.
Qed.

Lemma enter_text_footprint text : preserves ui_event (enter_text text).
Proof. unfold enter_text. footprint. apply human_type_footprint. Qed.

Lemma load_audio_footprint el mp3 wav :
  preserves fetch_event (load_audio el mp3 wav).
Proof. unfold load_audio. footprint. Qed.

(** C4 (as amended).  For every run of the transcription pipeline in
    which an identifier was generated (events 1 and 2 of the run are the
    temporary directory and the identifier): if no [os.remove] of the
    run failed, then when the call returns or raises, neither the mp3
    nor the wav file named with that identifier is on disk. *)
Theorem temp_files_removed language env h w r w' t d x :
  run (_solve_audio_challenge language) env h w = (r, w', t) ->
  t !! 1%nat = Some (EGetTempDir d) -> t !! 2%nat = Some (EUuid4 x) ->
  count is_failed_remove t = 0%nat ->
  (mp3_path d x ∉ files w') /\ (wav_path d x ∉ files w').
Proof.
  intros E H1 H2 Hc.
  apply solve_audio_challenge_body in E
    as [(e & e' & -> & _)
       |(el & d' & x' & h1 & rb & wb & tb & h2 & wc & tc & h3 & rest
         & -> & Eb & Ec & Hr)]; [done|].
  injection H1 as ->. injection H2 as ->.
  rewrite !count_cons, !count_app in Hc. simpl in Hc.
  apply cleanup_spec in Ec as (_ & _ & Hclean).
  assert (files w' = files wc) as ->.
  { destruct rb as [text|e]; [|by destruct Hr as (_ & -> & _)].
    apply enter_text_footprint in Hr as [-> F].
    by apply replay_ui_files. }
  split; apply Hclean; try lia.
  - apply list_elem_of_here.
  - apply list_elem_of_further, list_elem_of_here.
Qed.

Lemma temp_files_removed_witness :
  exists w' t,
    run (_solve_audio_challenge "en-US") env_solved [] w0 = (Ok tt, w', t) /\
    (mp3_path "/tmp" "id2" ∉ files w') /\ (wav_path "/tmp" "id2" ∉ files w').
Proof.
  eexists _, _. split; [vm_compute; reflexivity|].
  eapply (temp_files_removed "en-US" env_solved [] w0);
    vm_compute; reflexivity.
Defined.

(** C4 (as stated) fails: when [os.remove] raises, the [finally] block
    logs a warning and goes on; the pipeline then returns normally with
    both temporary files of the attempt still on disk. *)
Lemma temp_files_removed_counterexample :
  exists w' t,
    run (_solve_audio_challenge "en-US") env_remove_denied [] w0
    = (Ok tt, w', t) /\
    t !! 2%nat = Some (EUuid4 "id2") /\
    mp3_path "/tmp" "id2" ∈ files w' /\ wav_path "/tmp" "id2" ∈ files w'.
Proof.
  eexists _, _. split; [vm_compute; reflexivity|].
  split; [vm_compute; reflexivity|].
  split; apply (bool_decide_eq_true_1 _); vm_compute; reflexivity.
Qed.

(** ** Recognition with language fallback *)

Lemma recognitions_app t1 t2 :
  recognitions (t1 ++ t2) = recognitions t1 ++ recognitions t2.
Proof.
  induction t1 as [|ev t1 IH]; [done|].
  destruct ev; simpl; by rewrite ?IH.
Qed.

Lemma recognitions_none (f : Event -> bool) t :
  (forall ev, f ev = true -> is_recognition ev = false) ->
  Forall (fun ev => f ev = true) t -> recognitions t = [].
Proof.
  intros Hf F. induction F as [|ev t Hev _ IH]; [done|].
  apply Hf in Hev. by destruct ev.
Qed.

Lemma string_append_assoc (a b c : string) :
  (a +:+ b) +:+ c = a +:+ (b +:+ c).
Proof.
  induction a as [|x a IH]; [done|].
  change (String x ((a +:+ b) +:+ c) = String x (a +:+ (b +:+ c))).
  by f_equal.
Qed.

Lemma typed_text_app t1 t2 :
  typed_text (t1 ++ t2) = typed_text t1 +:+ typed_text t2.
Proof.
  induction t1 as [|ev t1 IH]; [done|].
  destruct ev; simpl; try done. destruct r; [|done].
  by rewrite IH, string_append_assoc.
Qed.

Lemma typed_text_none (f : Event -> bool) t :
  (forall ev, f ev = true -> is_send_keys ev = false) ->
  Forall (fun ev => f ev = true) t -> typed_text t = EmptyString.
Proof.
  intros Hf F. induction F as [|ev t Hev _ IH]; [done|].
  apply Hf in Hev. by destruct ev.
Qed.

Lemma human_type_typed element text env h w w' t :
  run (_human_type element text) env h w = (Ok tt, w', t) ->
  typed_text t = text.
Proof.
  revert h w t. induction text as [|c rest IH]; intros h w t E; simpl in E.
  - by injection E as <- <-.
  - apply bind_inv in E as [(u & w1 & t1 & t2 & E1 & E2 & ->)|(? & _ & ?)];
      [|done].
    apply call_result_inv in E1 as (_ & -> & ->).
    apply bind_inv in E2 as [(v & w2 & t3 & t4 & E2 & E3 & ->)|(? & _ & ?)];
      [|done].
    injection E2 as _ <- <-. apply IH in E3. simpl. by rewrite E3.
Qed.

Lemma recognize_fallback_shape audio languages env h w ro w' t :
  run (recognize_fallback audio languages) env h w = (ro, w', t) ->
  rec_shape languages (recognitions t) ro.
Proof.
  revert h w t. induction languages as [|lang rest IH]; intros h w t E;
    simpl in E.
  - injection E as <- <- <-. constructor.
  - apply bind_inv in E as [(r1 & w1 & t1 & t2 & E1 & E2 & ->)|(e & E1 & _)];
      [|by apply try_inv in E1 as (? & _ & ?)].
    apply try_inv in E1 as (r1' & E1 & [= ->]).
    apply call_result_inv in E1 as (_ & -> & ->).
    destruct r1' as [text|e].
    + injection E2 as <- <- <-. constructor.
    + destruct e; try (injection E2 as <- <- <-; by constructor).
      apply bind_inv in E2 as [(u & w2 & t3 & t4 & E2 & E3 & ->)|(? & E2 & _)];
        [|done].
      injection E2 as _ <- <-. simpl. constructor. eauto.
Qed.

Lemma shape_order languages recs ro (j : nat) lang res :
  rec_shape languages recs ro ->
  recs !! j = Some (lang, res) -> languages !! j = Some lang.
Proof.
  intros H. revert j. induction H; intros j Hj; try done;
    destruct j as [|j]; simpl in *; try done; try by injection Hj as <- _.
  eauto.
Qed.


Lemma shape_text_last languages recs text ro :
  rec_shape languages recs ro -> ro = Ok (Some text) ->
  exists lang answer,
    last recs = Some (lang, Ok answer) /\ text = lower answer.
Proof.
  intros H. induction H; intros Hro; try done.
  - injection Hro as <-. by exists lang, text0.
  - destruct (IHrec_shape Hro) as (l & a & Hl & ->). exists l, a.
    split; [|done]. by destruct recs.
Qed.

Lemma shape_request_last languages recs ro (j : nat) lang m :
  rec_shape languages recs ro ->
  recs !! j = Some (lang, Err (RequestError m)) ->
  ro = Err (RecaptchaException ("Speech recognition service error: " +:+ m))
  /\ length recs = S j.
Proof.
  intros H. revert j. induction H; intros j Hj; try done;
    destruct j as [|j]; simpl in *; try done.
  - destruct (IHrec_shape j Hj) as [-> ->]. done.
  - by injection Hj as _ <-.
  - injection Hj as _ ->. by destruct (H0 m).
Qed.

Lemma shape_unknown_next languages recs ro (j : nat) lang :
  rec_shape languages recs ro ->
  recs !! j = Some (lang, Err UnknownValueError) ->
  (S j < length languages)%nat ->
  exists lang' res', recs !! S j = Some (lang', res').
Proof.
  intros H. revert j. induction H; intros j Hj Hlen; try done;
    destruct j as [|j]; simpl in *; try done.
  - destruct H; simpl in *; try lia; eauto.
  - apply IHrec_shape; [done|lia].
  - by injection Hj as _ ->.
Qed.

Lemma fetch_not_recognition ev :
  fetch_event ev = true -> is_recognition ev = false.
Proof. by destruct ev. Qed.

Lemma clean_not_recognition ev :
  clean_event ev = true -> is_recognition ev = false.
Proof. by destruct ev. Qed.

Lemma ui_not_recognition ev : ui_event ev = true -> is_recognition ev = false.
Proof. by destruct ev. Qed.

Lemma transcribe_not_send_keys ev :
  fetch_event ev || rec_event ev = true -> is_send_keys ev = false.
Proof. by destruct ev. Qed.

Lemma clean_not_send_keys ev :
  clean_event ev = true -> is_send_keys ev = false.
Proof. by destruct ev. Qed.

Lemma transcribe_inv el mp3 wav language env h w rb wb tb :
  run (transcribe el mp3 wav language) env h w = (rb, wb, tb) ->
  (recognitions tb = [] /\ exists e, rb = Err e)
  \/ (exists ro,
         rec_shape (fallback_languages language) (recognitions tb) ro /\
         rb = match ro with
              | Ok (Some (String c s)) => Ok (String c s)
              | Ok _ => Err (RecaptchaException msg_not_understood)
              | Err e => Err e
              end).
Proof.
  unfold transcribe. intros E.
  apply bind_inv in E as [(audio & w1 & t1 & t2 & E1 & E2 & ->)|(e & E1 & ->)].
  - apply load_audio_footprint in E1 as [_ F1].
    rewrite recognitions_app,
      (recognitions_none _ _ fetch_not_recognition F1).
    right.
    apply bind_inv in E2 as [(rt & w2 & t3 & t4 & E2 & E3 & ->)|(e & E2 & ->)].
    + apply recognize_fallback_shape in E2. exists (Ok rt).
      destruct rt as [[|c s]|]; injection E3 as <- <- <-;
        by rewrite app_nil_r.
    + apply recognize_fallback_shape in E2. by exists (Err e).
  - apply load_audio_footprint in E1 as [_ F1]. left.
    split; [|by exists e].
    apply (recognitions_none _ _ fetch_not_recognition F1).
Qed.

Lemma enter_text_typed text env h w w' t :
  run (enter_text text) env h w = (Ok tt, w', t) -> typed_text t = text.
Proof.
  unfold enter_text. intros E.
  apply bind_inv in E as [(el & w1 & t1 & t2 & E1 & E2 & ->)|(? & _ & ?)];
    [|done].
  apply call_result_inv in E1 as (_ & -> & ->).
  apply bind_inv in E2 as [(u & w2 & t3 & t4 & E2 & E3 & ->)|(? & _ & ?)];
    [|done].
  apply call_result_inv in E2 as (_ & -> & ->).
  apply bind_inv in E3 as [(v & w3 & t5 & t6 & E3 & E4 & ->)|(? & _ & ?)];
    [|done].
  destruct v. apply human_type_typed in E3. injection E4 as _ <-.
  rewrite !typed_text_app, E3. simpl.
  clear. induction text as [|c s IH]; [done|].
  change (String c (s +:+ EmptyString) = String c s). by f_equal.
Qed.

Lemma solve_audio_challenge_recognitions language env h w r w' t :
  run (_solve_audio_challenge language) env h w = (r, w', t) ->
  (recognitions t = [] /\ exists e, r = Err e)
  \/ (exists ro,
         rec_shape (fallback_languages language) (recognitions t) ro /\
         match ro with
         | Ok (Some (String c s)) => r = Ok tt -> typed_text t = String c s
         | Ok _ => r = Err (RecaptchaException msg_not_understood)
         | Err e => r = Err e
         end).
Proof.
  intros E.
  apply solve_audio_challenge_body in E
    as [(e & e' & -> & _ & ->)
       |(el & d & x & h1 & rb & wb & tb & h2 & wc & tc & h3 & rest
         & -> & Eb & Ec & Hr)].
  { left. split; [done|]. by exists e'. }
  pose proof (cleanup_footprint _ _ _ _ _ _ _ Ec) as [_ Fc].
  pose proof (transcribe_footprint _ _ _ _ _ _ _ _ _ _ Eb) as [_ Fb].
  assert (recognitions rest = [] /\
          (r = Ok tt -> forall text, rb = Ok text -> typed_text rest = text))
    as [Rrest Trest].
  { destruct rb as [text|e].
    - pose proof (enter_text_footprint _ _ _ _ _ _ _ Hr) as [_ Fr].
      split; [apply (recognitions_none _ _ ui_not_recognition Fr)|].
      intros -> ? [= <-]. by eapply enter_text_typed.
    - destruct Hr as (-> & _ & ->). by split. }
  assert (recognitions
            (link_event (Ok el) :: EGetTempDir d :: EUuid4 x
             :: tb ++ tc ++ rest) = recognitions tb) as ->.
  { simpl. rewrite !recognitions_app, Rrest,
      (recognitions_none _ _ clean_not_recognition Fc).
    by rewrite !app_nil_r. }
  assert (typed_text
            (link_event (Ok el) :: EGetTempDir d :: EUuid4 x
             :: tb ++ tc ++ rest) = typed_text rest) as ->.
  { simpl. rewrite !typed_text_app,
      (typed_text_none _ _ transcribe_not_send_keys Fb),
      (typed_text_none _ _ clean_not_send_keys Fc). done. }
  apply transcribe_inv in Eb as [(Hn & e & ->)|(ro & Hs & ->)].
  - left. split; [done|]. destruct Hr as (-> & _). by exists e.
  - right. exists ro. split; [done|].
    destruct ro as [[[|c s]|]|e]; try by destruct Hr as (-> & _).
    intros Hok. by apply Trest.
Qed.



(** C6.  In every run of the transcription pipeline: if an attempt fails
    with a service error ([RequestError]), the pipeline raises
    [RecaptchaException('Speech recognition service error: ...')] and that
    attempt is the last recognition of the run (no further language, no
    retry); whereas after an attempt that reports "could not understand"
    ([UnknownValueError]) the next language of the list, if there is
    one, is attempted. *)
Theorem recognition_service_error_aborts language env h w r w' t :
  run (_solve_audio_challenge language) env h w = (r, w', t) ->
  (forall (j : nat) lang m,
      recognitions t !! j = Some (lang, Err (RequestError m)) ->
      r = Err (RecaptchaException
                 ("Speech recognition service error: " +:+ m)) /\
      length (recognitions t) = S j) /\
  (forall (j : nat) lang,
      recognitions t !! j = Some (lang, Err UnknownValueError) ->
      (S j < 4)%nat ->
      exists lang' res',
        recognitions t !! S j = Some (lang', res') /\
        [language; "en-US"; "en-GB"; "en"] !! S j = Some lang').
Proof.
  intros E.
  apply solve_audio_challenge_recognitions in E
    as [(-> & e & ->)|(ro & Hs & Hr)]; [done|].
  split.
  - intros j lang m Hj.
    destruct (shape_request_last _ _ _ _ _ _ Hs Hj) as [-> Hlen]. done.
  - intros j lang Hj Hlen.
    destruct (shape_unknown_next _ _ _ _ _ Hs Hj Hlen) as (lang' & res' & Hn).
    exists lang', res'. split; [done|]. by eapply shape_order.
Qed.

Lemma recognition_service_error_aborts_witness :
  exists w' t,
    run (_solve_audio_challenge "fr-FR") env_service_fault [] w0
    = (Err (RecaptchaException
              "Speech recognition service error: quota exceeded"), w', t) /\
    length (recognitions t) = 2%nat /\
    exists lang' res',
      recognitions t !! 1%nat = Some (lang', res') /\
      ["fr-FR"; "en-US"; "en-GB"; "en"] !! 1%nat = Some lang'.
Proof.
  eexists _, _. split; [vm_compute; reflexivity|].
  destruct (recognition_service_error_aborts "fr-FR" env_service_fault
              [] w0 _ _ _ eq_refl) as (Hfault & Hnext).
  split.
  - apply (Hfault 1%nat "en-US" "quota exceeded"). vm_compute. reflexivity.
  - apply (Hnext 0%nat "fr-FR"); [vm_compute; reflexivity|lia].
Defined.

(** * Further properties of the solver *)

(** ** Exact footprints of the parts *)

Lemma human_type_exact element text :
  preserves pipeline_exact (_human_type element text).
Proof. induction text as [|c rest IH]; simpl; footprint. Qed.

Lemma solve_audio_challenge_exact language :
  preserves pipeline_exact (_solve_audio_challenge language).
Proof. unfold _solve_audio_challenge. footprint. apply human_type_exact. Qed.

Lemma request_audio_mode_exact : preserves audio_exact request_audio_mode.
Proof. unfold request_audio_mode. footprint. Qed.

Lemma submit_verify_exact self : preserves verify_exact (submit_verify self).
Proof.
  unfold submit_verify, delay_after_click_verify_button. footprint.
Qed.

Lemma pipeline_exact_retry ev :
  pipeline_exact ev = true -> retry_exact ev = true.
Proof.
  destruct ev; try done. simpl. intros ->. by rewrite orb_true_r.
Qed.

Lemma retry_body_exact self i : preserves retry_exact (retry_body self i).
Proof.
  unfold retry_body. footprint.
  eapply preserves_weaken; [apply pipeline_exact_retry|].
  apply solve_audio_challenge_exact.
Qed.

Lemma retry_loop_exact self iterations :
  preserves retry_exact (retry_loop self iterations).
Proof.
  induction iterations as [|i rest IH]; simpl; footprint.
  apply retry_body_exact.
Qed.

(** ** Typing the answer *)

(** X1.  [_human_type] sends the characters of the text one by one, in
    order, each followed by a pause of 0.05 to 0.1 seconds.  If a
    keystroke is refused, it stops there: the characters before it were
    typed (and paused after), no pause follows the refused one, and its
    exception propagates.  The frame context and the files are left as
    they were. *)
Theorem human_type_trace element text env h w r w' t :
  run (_human_type element text) env h w = (r, w', t) ->
  w' = w /\
  match r with
  | Ok _ => t = key_events element text
  | Err e =>
      exists typed c rest,
        text = typed +:+ String c rest /\
        t = key_events element typed
            ++ [ESendKeys element (String c EmptyString) (Err e)]
  end.
Proof.
  revert h w r w' t.
  induction text as [|c rest IH]; intros h w r w' t E; simpl in E.
  - by injection E as <- <- <-.
  - apply bind_inv in E as [(u & w1 & t1 & t2 & E1 & E2 & ->)|(e & E1 & ->)].
    + apply call_result_inv in E1 as (_ & -> & ->).
      apply bind_inv in E2 as [(v & w2 & t3 & t4 & E2 & E3 & ->)|(? & E2 & _)];
        [|done].
      injection E2 as _ <- <-.
      apply IH in E3 as [-> Ht]. split; [done|]. destruct u.
      destruct r as [[]|e].
      * by rewrite Ht.
      * destruct Ht as (typed & c' & rest' & -> & ->).
        by exists (String c typed), c', rest'.
    + apply call_result_inv in E1 as (_ & -> & ->). split; [done|].
      by exists EmptyString, c, rest.
Qed.

Lemma human_type_trace_witness :
  exists t,
    run (_human_type 7%N "cat") env_third_key_refused [] w0
    = (Err (StaleElementReferenceException "stale element reference"),
       w0, t) /\
    exists typed c rest,
      "cat" = typed +:+ String c rest /\
      t = key_events 7%N typed
          ++ [ESendKeys 7%N (String c EmptyString)
                (Err (StaleElementReferenceException
                        "stale element reference"))].
Proof.
  eexists. split; [vm_compute; reflexivity|].
  eapply proj2.
  eapply (human_type_trace 7%N "cat" env_third_key_refused [] w0 (Err _)).
  vm_compute. reflexivity.
Defined.

(** ** What the transcription pipeline leaves alone *)

Lemma pipeline_exact_not_click ev :
  pipeline_exact ev = true -> is_click ev = false.
Proof. by destruct ev. Qed.

(** X2.  Every run of [_solve_audio_challenge] starts with the wait for
    the download link and issues it exactly once; it never clicks, never
    probes for the error indicator, and leaves the frame context as it
    found it, whether it returns or raises. *)
Theorem pipeline_leaves_session_alone language env h w r w' t :
  run (_solve_audio_challenge language) env h w = (r, w', t) ->
  frames w' = frames w /\
  (exists res, t !! 0%nat = Some (link_event res)) /\
  count is_pipeline_invocation t = 1%nat /\
  count is_click t = 0%nat /\ count is_probe t = 0%nat.
Proof.
  intros E.
  pose proof (solve_audio_challenge_footprint _ _ _ _ _ _ _ E) as F.
  pose proof (solve_audio_challenge_exact _ _ _ _ _ _ _ E) as [_ Fx].
  pose proof (solve_audio_challenge_count _ _ _ _ _ _ _ E) as Hc.
  apply solve_audio_challenge_inv in E as (res & t1 & -> & _).
  split.
  { exact (follows_inner_frames _ _ _
             (follows_weaken _ _ _ _ _ pipeline_inner F)). }
  split; [by exists res|]. split; [done|]. split.
  - exact (count_none is_click pipeline_exact _ pipeline_exact_not_click Fx).
  - destruct F as [_ F].
    exact (count_none is_probe pipeline_event _ pipeline_event_not_probe F).
Qed.

Lemma pipeline_leaves_session_alone_witness :
  exists w' t,
    run (_solve_audio_challenge "en-US") env_remove_denied [] w_nested
    = (Ok tt, w', t) /\
    frames w' = [4%N; 3%N] /\
    count is_pipeline_invocation t = 1%nat /\ count is_click t = 0%nat.
Proof.
  eexists _, _. split; [vm_compute; reflexivity|].
  destruct (pipeline_leaves_session_alone "en-US" env_remove_denied []
              w_nested _ _ _ eq_refl) as (Hf & _ & Hi & Hc & _).
  by repeat split.
Defined.

(** ** Files *)

Lemma existsb_eqb_elem_of (p : string) (paths : list string) :
  existsb (String.eqb p) paths = true -> p ∈ paths.
Proof.
  induction paths as [|q paths IH]; simpl; [done|].
  intros [Hq|Hp]%orb_true_iff.
  - apply String.eqb_eq in Hq as ->. apply list_elem_of_here.
  - by apply list_elem_of_further, IH.
Qed.

Lemma touches_only_other paths ev (p : string) w :
  touches_only paths ev = true -> p ∉ paths ->
  p ∈ files (apply_event ev w) <-> p ∈ files w.
Proof.
  intros Hev Hp.
  assert (forall q, existsb (String.eqb q) paths = true -> p <> q) as Hne.
  { intros q Hq%existsb_eqb_elem_of ->. done. }
  destruct ev; simpl in *; repeat case_match; simpl; try done;
    rewrite ?elem_of_union, ?elem_of_difference, ?elem_of_singleton;
    specialize (Hne _ Hev); tauto.
Qed.

Lemma replay_touches_only paths t (p : string) w :
  Forall (fun ev => touches_only paths ev = true) t -> p ∉ paths ->
  p ∈ files (replay t w) <-> p ∈ files w.
Proof.
  intros F Hp. revert w. induction F as [|ev t Hev _ IH]; intros w; [done|].
  simpl. rewrite IH. by apply (touches_only_other paths).
Qed.

Ltac footprint_paths :=
  autounfold with calls;
  repeat first
    [ footprint_step
    | apply preserves_file_call;
      [ intros; reflexivity
      | intros; simpl; rewrite ?String.eqb_refl; simpl;
        rewrite ?orb_true_r; reflexivity ]
    | apply preserves_call_result;
      [ intros; reflexivity
      | intros; reflexivity
      | intros; simpl; rewrite ?String.eqb_refl; simpl;
        rewrite ?orb_true_r; reflexivity ] ].

Lemma transcribe_touches el mp3 wav language :
  preserves (touches_only [mp3; wav]) (transcribe el mp3 wav language).
Proof. unfold transcribe, load_audio. footprint_paths. Qed.

Lemma cleanup_touches mp3 wav :
  preserves (touches_only [mp3; wav]) (cleanup [mp3; wav]).
Proof. simpl. footprint_paths. Qed.

Lemma solve_audio_challenge_files language env h w r w' t :
  run (_solve_audio_challenge language) env h w = (r, w', t) ->
  (exists e, t = [link_event (Err e)] /\ w' = w)
  \/ (exists el d x rest,
         t = link_event (Ok el) :: EGetTempDir d :: EUuid4 x :: rest /\
         (forall p : string,
             p <> mp3_path d x -> p <> wav_path d x ->
             p ∈ files w' <-> p ∈ files w) /\
         (count is_failed_remove t = 0%nat ->
          (mp3_path d x ∉ files w') /\ (wav_path d x ∉ files w'))).
Proof.
  intros E.
  apply solve_audio_challenge_body in E
    as [(e & e' & -> & -> & _)
       |(el & d & x & h1 & rb & wb & tb & h2 & wc & tc & h3 & rest
         & -> & Eb & Ec & Hr)].
  { left. by exists e. }
  right. exists el, d, x, (tb ++ tc ++ rest). split; [done|].
  assert (files w' = files wc) as ->.
  { destruct rb as [text|e]; [|by destruct Hr as (_ & -> & _)].
    apply enter_text_footprint in Hr as [-> F].
    by apply replay_ui_files. }
  split.
  - intros p Hm Hw.
    assert (p ∉ [mp3_path d x; wav_path d x]) as Hp.
    { intros [->|[->|[]%elem_of_nil]%elem_of_cons]%elem_of_cons; done. }
    apply transcribe_touches in Eb as [-> Fb].
    apply cleanup_touches in Ec as [-> Fc].
    by rewrite !replay_touches_only.
  - rewrite !count_cons, !count_app. simpl. intros Hc.
    apply cleanup_spec in Ec as (_ & _ & Hclean).
    split; apply Hclean; try lia.
    + apply list_elem_of_here.
    + apply list_elem_of_further, list_elem_of_here.
Qed.

(** X3.  A run of [_solve_audio_challenge] touches no file but its own
    two: for the directory and identifier it generated, every other path
    is on disk afterwards exactly if it was before, whether the run
    returns or raises.  If the download link is not found, no identifier
    is generated and the world is left as it was. *)
Theorem pipeline_touches_only_its_files language env h w r w' t :
  run (_solve_audio_challenge language) env h w = (r, w', t) ->
  (forall d x (p : string),
      t !! 1%nat = Some (EGetTempDir d) -> t !! 2%nat = Some (EUuid4 x) ->
      p <> mp3_path d x -> p <> wav_path d x ->
      p ∈ files w' <-> p ∈ files w) /\
  (forall e, t !! 0%nat = Some (link_event (Err e)) ->
             w' = w /\ length t = 1%nat).
Proof.
  intros E.
  apply solve_audio_challenge_files in E
    as [(e & -> & ->)|(el & d & x & rest & -> & Hother & _)].
  - split; [done|]. by intros e' _.
  - split; [|done]. intros d' x' p [= <-] [= <-]. apply Hother.
Qed.

Lemma pipeline_touches_only_its_files_witness :
  exists w' t,
    run (_solve_audio_challenge "en-US") env_remove_denied [] w_with_file
    = (Ok tt, w', t) /\
    ("/tmp/report.pdf" ∈ files w' <-> "/tmp/report.pdf" ∈ files w_with_file).
Proof.
  eexists _, _. split; [vm_compute; reflexivity|].
  eapply (proj1 (pipeline_touches_only_its_files "en-US" env_remove_denied
                   [] w_with_file _ _ _ eq_refl) "/tmp" "id2");
    vm_compute; try reflexivity; discriminate.
Defined.

Lemma no_new_files_same w w' t : files w' = files w -> no_new_files w w' t.
Proof. intros H _. by rewrite H. Qed.

Lemma no_new_files_app w w1 w2 t1 t2 :
  no_new_files w w1 t1 -> no_new_files w1 w2 t2 ->
  no_new_files w w2 (t1 ++ t2).
Proof.
  intros H1 H2 Hc. rewrite count_app in Hc.
  etrans; [apply H2 | apply H1]; lia.
Qed.

Lemma respects_bind {A B} (m : M A) (k : A -> M B) :
  respects no_new_files m -> (forall a, respects no_new_files (k a)) ->
  respects no_new_files (m ≫= k).
Proof.
  intros Hm Hk env h w r w' t E.
  apply bind_inv in E as [(a & w1 & t1 & t2 & E1 & E2 & ->)|(e & E1 & ->)].
  - eapply no_new_files_app; [eapply Hm | eapply Hk]; eauto.
  - eapply Hm; eauto.
Qed.

Lemma respects_ui {A} (m : M A) :
  preserves ui_event m -> respects no_new_files m.
Proof.
  intros Hm env h w r w' t [-> F]%Hm.
  by apply no_new_files_same, replay_ui_files.
Qed.

Lemma solve_audio_challenge_no_new_files language :
  respects no_new_files (_solve_audio_challenge language).
Proof.
  intros env h w r w' t E Hc.
  apply solve_audio_challenge_files in E
    as [(e & -> & ->)|(el & d & x & rest & -> & Hother & Hgone)]; [done|].
  destruct (Hgone Hc) as [Hm Hw]. intros p Hp.
  destruct (decide (p = mp3_path d x)) as [->|Hpm]; [done|].
  destruct (decide (p = wav_path d x)) as [->|Hpw]; [done|].
  by apply Hother.
Qed.

Lemma retry_body_no_new_files self i :
  respects no_new_files (retry_body self i).
Proof.
  unfold retry_body.
  apply respects_bind; [|intros _].
  { intros env h w r w' t (_ & _ & ->)%call_result_inv.
    apply no_new_files_same. by destruct r. }
  apply respects_bind; [apply respects_ui; footprint|intros _].
  apply respects_bind; [apply solve_audio_challenge_no_new_files|intros _].
  apply respects_ui. footprint.
Qed.

Lemma retry_loop_no_new_files self iterations :
  respects no_new_files (retry_loop self iterations).
Proof.
  induction iterations as [|i rest IH]; simpl.
  - intros env h w r w' t [= <- <- <-]. by apply no_new_files_same.
  - apply respects_bind.
    + intros env h w r w' t (rb & E & _)%try_inv.
      by eapply retry_body_no_new_files.
    + intros [[]|e]; [exact IH|].
      destruct (is_TimeoutException e);
        intros env h w r w' t [= <- <- <-]; by apply no_new_files_same.
Qed.

Lemma solve_no_new_files self iframe :
  respects no_new_files (solve_recaptcha_v2_challenge self iframe).
Proof.
  unfold solve_recaptcha_v2_challenge, solve_prologue.
  apply respects_bind; [|intros _].
  - apply respects_bind; [|intros _].
    { intros env h w r w' t E.
      apply switch_to_frame_inv in E as [(_ & -> & _)|(e & _ & -> & _)];
        by apply no_new_files_same. }
    apply respects_bind;
      [apply respects_ui, request_audio_mode_footprint|intros _].
    apply respects_bind; [apply solve_audio_challenge_no_new_files|intros _].
    apply respects_ui, submit_verify_footprint.
  - apply respects_bind; [apply retry_loop_no_new_files|intros _].
    intros env h w r w' t [= <- <- <-]. by apply no_new_files_same.
Qed.

(** X4.  If no [os.remove] fails during a run of
    [solve_recaptcha_v2_challenge], the run leaves no file behind: every
    file on disk when the call returns or raises was there before the
    call, however many times the pipeline ran. *)
Theorem solve_leaves_no_file_behind self iframe env h w r w' t :
  run (solve_recaptcha_v2_challenge self iframe) env h w = (r, w', t) ->
  count is_failed_remove t = 0%nat ->
  files w' ⊆ files w.
Proof. intros E. by apply (solve_no_new_files self iframe env h w r w' t). Qed.

Lemma solve_leaves_no_file_behind_witness :
  exists w' t,
    run (solve_recaptcha_v2_challenge solver3 9%N) env_always_error []
      w_with_file
    = (Err (RecaptchaException msg_exhausted), w', t) /\
    count is_pipeline_invocation t = 4%nat /\
    files w' ⊆ files w_with_file.
Proof.
  eexists _, _. split; [vm_compute; reflexivity|].
  split; [vm_compute; reflexivity|].
  eapply (solve_leaves_no_file_behind solver3 9%N env_always_error []
            w_with_file);
    vm_compute; reflexivity.
Defined.

(** ** Recognition that yields no transcript *)

Lemma lower_empty text : lower text = EmptyString -> text = EmptyString.
Proof. by destruct text. Qed.

Lemma shape_answer_last languages recs ro (j : nat) lang answer :
  rec_shape languages recs ro ->
  recs !! j = Some (lang, Ok answer) ->
  ro = Ok (Some (lower answer)) /\ length recs = S j.
Proof.
  intros H. revert j. induction H; intros j Hj; try done;
    destruct j as [|j]; simpl in *; try done.
  - by injection Hj as _ <-.
  - destruct (IHrec_shape j Hj) as [-> ->]. done.
Qed.

Lemma shape_last_unknown languages recs ro (j : nat) lang :
  rec_shape languages recs ro ->
  recs !! j = Some (lang, Err UnknownValueError) ->
  S j = length languages -> ro = Ok None.
Proof.
  intros H. revert j. induction H; intros j Hj Hlen; try done;
    destruct j as [|j]; simpl in *; try done.
  - destruct H; simpl in *; try done.
  - apply (IHrec_shape j); [done|lia].
  - by injection Hj as _ ->.
Qed.

(** X5.  Two ways in which a run of [_solve_audio_challenge] ends without a
    transcript, both raising [RecaptchaException('Speech recognition API
    could not understand audio, try again')]: the recognition service
    answers with the empty text, in which case no further language is
    tried; or the attempt with the fourth and last language reports that
    the audio could not be understood. *)
Theorem no_transcript_is_not_understood language env h w r w' t :
  run (_solve_audio_challenge language) env h w = (r, w', t) ->
  (forall (j : nat) lang,
      recognitions t !! j = Some (lang, Ok EmptyString) ->
      r = Err (RecaptchaException msg_not_understood) /\
      length (recognitions t) = S j) /\
  (forall lang,
      recognitions t !! 3%nat = Some (lang, Err UnknownValueError) ->
      r = Err (RecaptchaException msg_not_understood) /\
      length (recognitions t) = 4%nat).
Proof.
  intros E.
  apply solve_audio_challenge_recognitions in E
    as [(-> & e & ->)|(ro & Hs & Hr)]; [done|].
  split.
  - intros j lang Hj.
    destruct (shape_answer_last _ _ _ _ _ _ Hs Hj) as [-> Hlen].
    by split.
  - intros lang Hj.
    rewrite (shape_last_unknown _ _ _ _ _ Hs Hj eq_refl) in Hr.
    split; [done|].
    assert (length (recognitions t) <= 4)%nat.
    { clear -Hs. change 4%nat with (length (fallback_languages language)).
      induction Hs; simpl; lia. }
    apply lookup_lt_Some in Hj. lia.
Qed.

Lemma no_transcript_is_not_understood_witness :
  (exists w' t,
      run (_solve_audio_challenge "fr-FR") env_silence [] w0
      = (Err (RecaptchaException msg_not_understood), w', t) /\
      length (recognitions t) = 1%nat) /\
  (exists w' t,
      run (_solve_audio_challenge "fr-FR") env_not_understood [] w0
      = (Err (RecaptchaException msg_not_understood), w', t) /\
      length (recognitions t) = 4%nat).
Proof.
  split; eexists _, _; (split; [vm_compute; reflexivity|]).
  - eapply proj2.
    eapply (proj1 (no_transcript_is_not_understood "fr-FR" env_silence
                     [] w0 _ _ _ eq_refl) 0%nat "fr-FR").
    vm_compute. reflexivity.
  - eapply proj2.
    eapply (proj2 (no_transcript_is_not_understood "fr-FR"
                     env_not_understood [] w0 _ _ _ eq_refl) "en").
    vm_compute. reflexivity.
Defined.

(** ** The response box *)

Lemma transcribe_not_response_box ev :
  fetch_event ev || rec_event ev = true -> is_response_box ev = false.
Proof. by destruct ev. Qed.

Lemma clean_not_response_box ev :
  clean_event ev = true -> is_response_box ev = false.
Proof. by destruct ev. Qed.

(** X6.  A run of [_solve_audio_challenge] calls on the response text box
    (locating, clearing, typing) only after a transcript was obtained:
    the last recognition attempt answered with a text that is not empty.
    By then the [finally] block is over: from the first call on the box
    on, the run performs no file operation and no recognition. *)
Theorem response_box_needs_transcript language env h w r w' t (k : nat) ev :
  run (_solve_audio_challenge language) env h w = (r, w', t) ->
  t !! k = Some ev -> is_response_box ev = true ->
  (exists lang answer,
      last (recognitions t) = Some (lang, Ok answer) /\
      answer <> EmptyString) /\
  Forall (fun ev' => ui_event ev' = true) (drop k t).
Proof.
  intros E Hk Hev.
  apply solve_audio_challenge_body in E
    as [(e & e' & -> & _)
       |(el & d & x & h1 & rb & wb & tb & h2 & wc & tc & h3 & rest
         & -> & Eb & Ec & Hr)].
  { destruct k as [|k]; [|done]. by injection Hk as <-. }
  pose proof (cleanup_footprint _ _ _ _ _ _ _ Ec) as [_ Fc].
  pose proof (transcribe_footprint _ _ _ _ _ _ _ _ _ _ Eb) as [_ Fb].
  assert (exists j : nat, rest !! j = Some ev /\
             k = (3 + length tb + length tc + j)%nat) as (j & Hj & ->).
  { destruct k as [|[|[|k]]]; simpl in Hk; try by injection Hk as <-.
    rewrite lookup_app in Hk. destruct (tb !! k) eqn:Hb.
    { injection Hk as ->. rewrite Forall_lookup in Fb.
      apply Fb, transcribe_not_response_box in Hb. congruence. }
    apply lookup_ge_None in Hb. rewrite lookup_app in Hk.
    destruct (tc !! (k - length tb)%nat) eqn:Hc.
    { injection Hk as ->. rewrite Forall_lookup in Fc.
      apply Fc, clean_not_response_box in Hc. congruence. }
    apply lookup_ge_None in Hc.
    exists (k - length tb - length tc)%nat. split; [done|lia]. }
  destruct rb as [text|e]; [|by destruct Hr as (_ & _ & ->)].
  pose proof (enter_text_footprint _ _ _ _ _ _ _ Hr) as [_ Fr].
  split.
  - assert (recognitions
              (link_event (Ok el) :: EGetTempDir d :: EUuid4 x
               :: tb ++ tc ++ rest) = recognitions tb) as ->.
    { simpl. rewrite !recognitions_app,
        (recognitions_none _ _ clean_not_recognition Fc),
        (recognitions_none _ _ ui_not_recognition Fr).
      by rewrite !app_nil_r. }
    apply transcribe_inv in Eb as [(_ & ? & ?)|(ro & Hs & Hro)]; [done|].
    destruct ro as [[[|c s]|]|e]; try done.
    destruct (shape_text_last _ _ _ _ Hs eq_refl) as (lang & answer & Hl & Ha).
    exists lang, answer. split; [done|]. by intros ->.
  - change (link_event (Ok el) :: EGetTempDir d :: EUuid4 x
            :: tb ++ tc ++ rest)
      with ([link_event (Ok el); EGetTempDir d; EUuid4 x]
            ++ tb ++ tc ++ rest).
    rewrite !app_assoc.
    rewrite drop_app_ge by (rewrite !length_app; simpl; lia).
    rewrite !length_app. simpl.
    replace (3 + length tb + length tc + j - (3 + length tb + length tc))%nat
      with j by lia.
    by apply Forall_drop.
Qed.

Lemma response_box_needs_transcript_witness :
  exists w' t,
    run (_solve_audio_challenge "en-US") env_third_key_refused [] w0
    = (Err (StaleElementReferenceException "stale element reference"),
       w', t) /\
    (exists lang answer,
        last (recognitions t) = Some (lang, Ok answer) /\
        answer <> EmptyString) /\
    Forall (fun ev' => ui_event ev' = true) (drop 16 t).
Proof.
  eexists _, _. split; [vm_compute; reflexivity|].
  eapply (response_box_needs_transcript "en-US" env_third_key_refused
            [] w0 _ _ _ 16%nat);
    vm_compute; reflexivity.
Defined.

(** ** Counting probes, pipeline runs and clicks *)

Lemma count_nil f : count f [] = 0%nat.
Proof. done. Qed.

Lemma ui_event_not_invocation ev :
  ui_event ev = true -> is_pipeline_invocation ev = false.
Proof.
  intros H. apply tail_event_not_invocation. unfold tail_event.
  by rewrite H.
Qed.

Lemma request_audio_mode_counts env h w r w' t :
  run request_audio_mode env h w = (r, w', t) ->
  (count is_click t <= 1)%nat /\ count is_pipeline_invocation t = 0%nat.
Proof.
  intros E. split.
  - revert E.
    unfold run, request_audio_mode, try_except, mbind, M_bind, bind,
      _wait_for_element, wait_until, _js_click, execute_script, call_result,
      print, sleep_uniform, emit.
    destruct (env_wait env h _ _ _ _) as [el|e].
    + destruct (env_execute_script env _ _ el) as [[]|e].
      * intros [= <- <- <-]. rewrite ?count_app, ?count_cons, ?count_nil. simpl. lia.
      * destruct (is_TimeoutException e); intros [= <- <- <-];
          rewrite ?count_app, ?count_cons, ?count_nil; simpl; lia.
    + destruct (is_TimeoutException e); intros [= <- <- <-];
        rewrite ?count_app, ?count_cons, ?count_nil; simpl; lia.
  - apply request_audio_mode_footprint in E as [_ F].
    exact (count_none _ _ _ ui_event_not_invocation F).
Qed.

Lemma click_after_wait_counts by_ locator timeout env h w r w' t :
  run (button ← _wait_for_element by_ locator timeout; _js_click button)
    env h w = (r, w', t) ->
  (count is_click t <= 1)%nat.
Proof.
  intros E.
  apply bind_inv in E as [(a & w1 & t1 & t2 & E1 & E2 & ->)|(e & E1 & ->)].
  - apply call_result_inv in E1 as (_ & -> & _).
    apply call_result_inv in E2 as (_ & -> & _).
    rewrite ?count_app, ?count_cons, ?count_nil. simpl. lia.
  - apply call_result_inv in E1 as (_ & -> & _).
    rewrite ?count_app, ?count_cons, ?count_nil. simpl. lia.
Qed.

Lemma submit_verify_counts self env h w r w' t :
  run (submit_verify self) env h w = (r, w', t) ->
  (count is_click t <= 1)%nat /\ count is_pipeline_invocation t = 0%nat.
Proof.
  intros E. split.
  - unfold submit_verify in E.
    apply bind_inv in E as [(a & w1 & t1 & t2 & E1 & E2 & ->)|(e & E1 & ->)];
      apply call_result_inv in E1 as (_ & -> & _);
      [|rewrite ?count_app, ?count_cons, ?count_nil; simpl; lia].
    apply bind_inv in E2 as [(b & w2 & t3 & t4 & E2 & E3 & ->)|(e & E2 & ->)];
      apply call_result_inv in E2 as (_ & -> & _);
      [|rewrite ?count_app, ?count_cons, ?count_nil; simpl; lia].
    apply bind_inv in E3 as [(c & w3 & t5 & t6 & E3 & E4 & ->)|(e & E3 & _)];
      [|done].
    injection E3 as _ _ <-.
    assert (count is_click t6 = 0%nat) as Ht6.
    { destruct (_delay_config self); by injection E4 as _ _ <-. }
    rewrite ?count_app, ?count_cons, ?count_nil, Ht6. simpl. lia.
  - apply submit_verify_footprint in E as [_ F].
    exact (count_none _ _ _ ui_event_not_invocation F).
Qed.

Lemma retry_body_counts self i env h w r w' t :
  run (retry_body self i) env h w = (r, w', t) ->
  exists res t1,
    t = probe_event res :: t1 /\
    count is_probe t1 = 0%nat /\ count is_probe_present t1 = 0%nat /\
    match res with
    | Ok _ =>
        count is_pipeline_invocation t1 = 1%nat /\ (count is_click t1 <= 1)%nat
    | Err e => t1 = []
    end.
Proof.
  intros E.
  pose proof (retry_body_inv _ _ _ _ _ _ _ _ E) as (res & t1 & -> & F & Hres).
  exists res, t1. split; [done|].
  split; [exact (count_none _ _ _ pipeline_event_not_probe F)|].
  split; [exact (count_none _ _ _ pipeline_event_not_probe_present F)|].
  destruct res as [el|e]; [|by destruct Hres as (-> & _)].
  unfold retry_body in E.
  apply bind_inv in E as [(a & w1 & t0 & t2 & E1 & E2 & Ht)|(e & E1 & _)];
    [|by apply call_result_inv in E1 as (? & ? & _)].
  apply call_result_inv in E1 as (_ & -> & _).
  injection Ht as _ ->.
  apply bind_inv in E2 as [(b & w2 & t3 & t4 & E0 & E2 & ->)|(? & E0 & _)];
    [|done].
  injection E0 as _ _ <-.
  apply bind_inv in E2 as [(c & w3 & t5 & t6 & E2 & E3 & ->)|(e & E2 & ->)].
  - pose proof (solve_audio_challenge_count _ _ _ _ _ _ _ E2) as Hc.
    apply solve_audio_challenge_exact in E2 as [_ Fx].
    pose proof (click_after_wait_counts _ _ _ _ _ _ _ _ _ E3) as Hk.
    assert (preserves ui_event
              (second_verify_button ←
                 _wait_for_element By_ID "recaptcha-verify-button" 5;
               _js_click second_verify_button)) as Hp by footprint.
    apply Hp in E3 as [_ F3].
    rewrite !count_app, Hc,
      (count_none _ _ _ ui_event_not_invocation F3),
      (count_none is_click _ t5 pipeline_exact_not_click Fx).
    rewrite ?count_app, ?count_cons, ?count_nil. simpl. lia.
  - pose proof (solve_audio_challenge_count _ _ _ _ _ _ _ E2) as Hc.
    apply solve_audio_challenge_exact in E2 as [_ Fx].
    rewrite !count_app, Hc,
      (count_none is_click _ t4 pipeline_exact_not_click Fx).
    rewrite ?count_app, ?count_cons, ?count_nil. simpl. lia.
Qed.

Lemma retry_loop_counts self iterations env h w r w' t :
  run (retry_loop self iterations) env h w = (r, w', t) ->
  (count is_probe t <= length iterations)%nat /\
  (count is_probe_present t <= count is_probe t)%nat /\
  count is_pipeline_invocation t = count is_probe_present t /\
  (count is_click t <= count is_probe_present t)%nat.
Proof.
  revert h w t.
  induction iterations as [|i rest IH]; intros h w t E; simpl in E.
  - injection E as _ _ <-. rewrite !count_nil. simpl. lia.
  - apply bind_inv in E as [(rb & w1 & t1 & t2 & E1 & E2 & ->)|(e & E1 & _)];
      [|by apply try_inv in E1 as (? & _ & ?)].
    apply try_inv in E1 as (rb' & E1 & [= ->]).
    apply retry_body_counts in E1 as (res & t1' & -> & C1 & C2 & Hres).
    assert ((count is_probe t2 <= length rest)%nat /\
            (count is_probe_present t2 <= count is_probe t2)%nat /\
            count is_pipeline_invocation t2 = count is_probe_present t2 /\
            (count is_click t2 <= count is_probe_present t2)%nat)
      as (L1 & L2 & L3 & L4).
    { destruct rb' as [[]|e]; [by eapply IH|].
      destruct (is_TimeoutException e); injection E2 as _ _ <-;
        rewrite !count_nil; lia. }
    rewrite !count_app, !count_cons, C1, C2. simpl.
    destruct res as [el|e].
    + destruct Hres as [-> Hk]. simpl. lia.
    + subst t1'. rewrite !count_nil. simpl. lia.
Qed.

Lemma solve_prologue_click_counts self iframe env h w r w1 tp :
  run (solve_prologue self iframe) env h w = (r, w1, tp) ->
  (count is_pipeline_invocation tp <= 1)%nat /\ (count is_click tp <= 2)%nat.
Proof.
  unfold solve_prologue. intros E.
  apply bind_inv in E as [(a & w2 & t1 & t2 & E1 & E2 & ->)|(e & E1 & ->)].
  2: { apply switch_to_frame_inv in E1 as [(? & _)|(? & _ & _ & ->)];
         [done|].
       rewrite ?count_cons, ?count_nil. simpl. lia. }
  apply switch_to_frame_inv in E1 as [(_ & _ & ->)|(? & ? & _)]; [|done].
  rewrite !count_app, !count_cons, !count_nil. simpl.
  apply bind_inv in E2 as [(b & w3 & t3 & t4 & E2 & E3 & ->)|(e & E2 & ->)];
    pose proof (request_audio_mode_counts _ _ _ _ _ _ E2) as [A1 A2];
    [|lia].
  rewrite !count_app.
  apply bind_inv in E3 as [(c & w4 & t5 & t6 & E3 & E4 & ->)|(e & E3 & ->)];
    pose proof (solve_audio_challenge_count _ _ _ _ _ _ _ E3) as P1;
    apply solve_audio_challenge_exact in E3 as [_ Fx];
    pose proof (count_none is_click _ _ pipeline_exact_not_click Fx) as P2;
    [|lia].
  rewrite !count_app.
  apply submit_verify_counts in E4 as [V1 V2]. lia.
Qed.

(** X7.  Bounds on what a run of [solve_recaptcha_v2_challenge] does, for
    every environment and outcome: it probes for the error indicator at
    most [max_retries] times; it runs the transcription pipeline once per
    probe that found the indicator, plus at most once before the loop
    (so at most [max_retries + 1] times); and it clicks at most twice
    before the loop and once per probe that found the indicator. *)
Theorem solve_effort_is_bounded self iframe env h w r w' t :
  run (solve_recaptcha_v2_challenge self iframe) env h w = (r, w', t) ->
  (count is_probe t <= Z.to_nat (_max_retries self))%nat /\
  (count is_probe_present t <= count is_probe t)%nat /\
  (count is_probe_present t <= count is_pipeline_invocation t)%nat /\
  (count is_pipeline_invocation t <= 1 + count is_probe_present t)%nat /\
  (count is_click t <= 2 + count is_probe_present t)%nat.
Proof.
  intros E.
  destruct (run (solve_prologue self iframe) env h w) as [[rp w1] tp] eqn:Ep.
  pose proof (solve_prologue_click_counts _ _ _ _ _ _ _ _ Ep) as [P1 P2].
  assert (count is_probe tp = 0%nat /\ count is_probe_present tp = 0%nat)
    as [P3 P4].
  { pose proof (solve_prologue_inv _ _ _ _ _ _ _ _ Ep)
      as [(? & _ & _ & ->)|(t1 & -> & _ & F)];
      rewrite ?count_cons, ?count_nil; simpl; [done|].
    by rewrite (count_none is_probe pipeline_event t1
                  pipeline_event_not_probe F),
      (count_none is_probe_present pipeline_event t1
         pipeline_event_not_probe_present F). }
  destruct rp as [[]|e].
  - rewrite (solve_run_entered _ _ _ _ _ _ _ Ep) in E.
    destruct (run (retry_loop _ _) _ _ _) as [[rl w2] tl] eqn:El.
    apply retry_loop_counts in El as (L1 & L2 & L3 & L4).
    rewrite range_length in L1.
    destruct rl as [[]|e]; injection E as _ _ <-;
      rewrite !count_app, ?count_cons, ?count_nil; simpl; lia.
  - rewrite (solve_run_not_entered _ _ _ _ _ _ _ _ Ep) in E.
    injection E as _ _ <-. lia.
Qed.

Lemma solve_effort_is_bounded_witness :
  exists w' t,
    run (solve_recaptcha_v2_challenge solver3 9%N) env_quota_on_retry [] w0
    = (Err (RecaptchaException
              "Speech recognition service error: quota exceeded"), w', t) /\
    (count is_probe t <= 3)%nat /\
    (count is_pipeline_invocation t <= 1 + count is_probe_present t)%nat /\
    (count is_click t <= 2 + count is_probe_present t)%nat.
Proof.
  eexists _, _. split; [vm_compute; reflexivity|].
  refine ((fun H => conj (proj1 H)
                      (conj (proj1 (proj2 (proj2 (proj2 H))))
                         (proj2 (proj2 (proj2 (proj2 H))))))
            (solve_effort_is_bounded solver3 9%N env_quota_on_retry [] w0
               _ _ _ _)).
  vm_compute. reflexivity.
Defined.

(** ** A timeout of the wait for the verify button *)

Lemma pipeline_exact_not_verify_timeout m ev :
  pipeline_exact ev = true -> is_verify_timeout m ev = false.
Proof.
  destruct ev; try done. simpl. destruct c, by_; try done.
Qed.

Lemma audio_exact_not_verify_timeout m ev :
  audio_exact ev = true -> is_verify_timeout m ev = false.
Proof.
  destruct ev; try done. simpl. destruct c, by_; try done.
Qed.

Lemma stops_verify_wait m :
  stops (is_verify_timeout m) (TimeoutException m)
    (_wait_for_element By_ID "recaptcha-verify-button" 5).
Proof.
  intros env h w r w' t k ev E Hk Hev.
  apply call_result_inv in E as (_ & -> & _).
  destruct k as [|k]; [|done]. injection Hk as <-.
  destruct r as [a|[]]; try done.
  simpl in Hev. apply String.eqb_eq in Hev as ->. done.
Qed.

Lemma stops_not_fatal {A} fatal e0 (m : M A) :
  preserves (fun ev => negb (fatal ev)) m -> stops fatal e0 m.
Proof.
  apply stops_footprint. by intros ev ?%negb_true_iff.
Qed.

Lemma retry_body_stops_verify_timeout m self i :
  stops (is_verify_timeout m) (TimeoutException m) (retry_body self i).
Proof.
  unfold retry_body.
  apply stops_bind; [apply stops_not_fatal; footprint|intros _].
  apply stops_bind; [apply stops_not_fatal; footprint|intros _].
  apply stops_bind; [|intros _].
  { apply (stops_footprint _ _ pipeline_exact _
             (pipeline_exact_not_verify_timeout m)).
    apply solve_audio_challenge_exact. }
  apply stops_bind; [apply stops_verify_wait|intros ?].
  apply stops_not_fatal. footprint.
Qed.

Lemma solve_prologue_stops_verify_timeout m self iframe :
  stops (is_verify_timeout m) (TimeoutException m)
    (solve_prologue self iframe).
Proof.
  unfold solve_prologue.
  apply stops_bind; [apply stops_not_fatal; footprint|intros _].
  apply stops_bind; [|intros _].
  { apply (stops_footprint _ _ audio_exact _
             (audio_exact_not_verify_timeout m)).
    apply request_audio_mode_exact. }
  apply stops_bind; [|intros _].
  { apply (stops_footprint _ _ pipeline_exact _
             (pipeline_exact_not_verify_timeout m)).
    apply solve_audio_challenge_exact. }
  unfold submit_verify.
  apply stops_bind; [apply stops_verify_wait|intros ?].
  apply stops_not_fatal. unfold delay_after_click_verify_button. footprint.
Qed.

(** Inside the retry loop, an event after which the body raises a
    [TimeoutException] is the last one, and the loop ends normally. *)
Lemma retry_loop_breaks fatal e0 self iterations env h w r w' t (k : nat) ev :
  is_TimeoutException e0 = true ->
  (forall i, stops fatal e0 (retry_body self i)) ->
  run (retry_loop self iterations) env h w = (r, w', t) ->
  t !! k = Some ev -> fatal ev = true ->
  r = Ok tt /\ length t = S k.
Proof.
  intros He0 Hb. revert h w t k.
  induction iterations as [|i rest IH]; intros h w t k E Hk Hev; simpl in E.
  - by injection E as <- <- <-.
  - apply bind_inv in E as [(rb & w1 & t1 & t2 & E1 & E2 & ->)|(e & E1 & _)];
      [|by apply try_inv in E1 as (? & _ & ?)].
    apply try_inv in E1 as (rb' & E1 & [= ->]).
    rewrite lookup_app in Hk. destruct (t1 !! k) eqn:Hl.
    + injection Hk as ->.
      destruct (Hb _ _ _ _ _ _ _ _ _ E1 Hl Hev) as [-> Hlen].
      rewrite He0 in E2. injection E2 as <- <- <-.
      by rewrite app_nil_r.
    + apply lookup_ge_None in Hl. destruct rb' as [[]|e].
      * destruct (IH _ _ _ _ E2 Hk Hev) as [-> Hlen].
        split; [done|]. rewrite length_app, Hlen. lia.
      * by destruct (is_TimeoutException e); injection E2 as <- <- <-.
Qed.

Lemma retry_loop_first self iterations env h w r w' t :
  run (retry_loop self iterations) env h w = (r, w', t) ->
  t = [] \/ exists res rest, t = probe_event res :: rest.
Proof.
  destruct iterations as [|i rest]; simpl; intros E.
  - left. by injection E as _ _ <-.
  - right.
    apply bind_inv in E as [(rb & w1 & t1 & t2 & E1 & E2 & ->)|(e & E1 & _)];
      [|by apply try_inv in E1 as (? & _ & ?)].
    apply try_inv in E1 as (rb' & E1 & _).
    apply retry_body_inv in E1 as (res & t1' & -> & _).
    by exists res, (t1' ++ t2).
Qed.

Lemma count_take_le f (k : nat) t : (count f (take k t) <= count f t)%nat.
Proof.
  rewrite <- (take_drop k t) at 2. rewrite count_app. lia.
Qed.

(** X8.  A timeout of the wait for the verify button has opposite
    effects on [solve_recaptcha_v2_challenge] depending on where it
    happens.  Before the retry loop (no probe was made yet) it is the last
    event of the run and the [TimeoutException] propagates to the caller.
    Inside the retry loop (after a probe) it is caught like a probe
    timeout: the run returns normally, the only later event being the
    switch to the parent frame, although the verify button was not
    clicked again. *)
Theorem verify_button_timeout self iframe env h w r w' t (k : nat) ev m :
  run (solve_recaptcha_v2_challenge self iframe) env h w = (r, w', t) ->
  t !! k = Some ev -> is_verify_timeout m ev = true ->
  (count is_probe (take k t) = 0%nat ->
   r = Err (TimeoutException m) /\ length t = S k) /\
  ((0 < count is_probe (take k t))%nat ->
   r = Ok tt /\ drop (S k) t = [ESwitchParentFrame]).
Proof.
  intros E Hk Hev.
  destruct (run (solve_prologue self iframe) env h w) as [[rp w1] tp] eqn:Ep.
  assert (count is_probe tp = 0%nat) as Hp0.
  { pose proof (solve_prologue_inv _ _ _ _ _ _ _ _ Ep)
      as [(? & _ & _ & ->)|(t1 & -> & _ & F)];
      rewrite ?count_cons, ?count_nil; simpl; [done|].
    exact (count_none is_probe pipeline_event t1 pipeline_event_not_probe F). }
  destruct rp as [[]|e].
  - rewrite (solve_run_entered _ _ _ _ _ _ _ Ep) in E.
    destruct (run (retry_loop _ _) _ _ _) as [[rl w2] tl] eqn:El.
    assert (exists j : nat, tl !! j = Some ev /\ k = (length tp + j)%nat)
      as (j & Hj & ->).
    { assert ((tp ++ tl ++ [ESwitchParentFrame]) !! k = Some ev) as Hk'.
      { destruct rl as [[]|e]; injection E as _ _ <-; [done|].
        rewrite app_assoc. by apply lookup_app_l_Some. }
      rewrite lookup_app in Hk'. destruct (tp !! k) eqn:Hl.
      { injection Hk' as ->.
        by destruct (solve_prologue_stops_verify_timeout m self iframe
                       _ _ _ _ _ _ _ _ Ep Hl Hev). }
      apply lookup_ge_None in Hl. rewrite lookup_app in Hk'.
      destruct (tl !! (k - length tp)%nat) eqn:Hl2.
      - injection Hk' as ->. exists (k - length tp)%nat. split; [done|lia].
      - destruct (k - length tp - length tl)%nat as [|n]; [|done].
        by injection Hk' as <-. }
    destruct (retry_loop_breaks (is_verify_timeout m) (TimeoutException m)
                self _ env _ _ _ _ _ j ev eq_refl
                (retry_body_stops_verify_timeout m self) El Hj Hev)
      as [-> Hlen].
    injection E as <- <- <-. split.
    + intros Hc. exfalso.
      apply retry_loop_first in El as [->|(res & rest & ->)]; [done|].
      destruct j as [|j]; [by injection Hj as <-|].
      rewrite take_app_ge, count_app in Hc by lia.
      replace (length tp + S j - length tp)%nat with (S j) in Hc by lia.
      simpl in Hc. rewrite count_cons in Hc. simpl in Hc. lia.
    + intros _. split; [done|].
      rewrite app_assoc. apply drop_app_length'. rewrite length_app. lia.
  - rewrite (solve_run_not_entered _ _ _ _ _ _ _ _ Ep) in E.
    injection E as <- <- <-.
    destruct (solve_prologue_stops_verify_timeout m self iframe
                _ _ _ _ _ _ _ _ Ep Hk Hev) as [[= ->] Hlen].
    split; [done|]. intros Hc.
    pose proof (count_take_le is_probe k tp). lia.
Qed.

Lemma verify_button_timeout_witness :
  (exists w' t,
      run (solve_recaptcha_v2_challenge solver3 9%N) env_verify_missing [] w0
      = (Err (TimeoutException timeout_msg), w', t) /\
      length t = 41%nat) /\
  (exists w' t,
      run (solve_recaptcha_v2_challenge solver3 9%N) env_verify_lost [] w0
      = (Ok tt, w', t) /\
      drop 82 t = [ESwitchParentFrame]).
Proof.
  split; eexists _, _; (split; [vm_compute; reflexivity|]).
  - refine (proj2 (proj1 (verify_button_timeout solver3 9%N
                            env_verify_missing [] w0 _ _ _ 40%nat _
                            timeout_msg _ _ _) _));
      vm_compute; first [reflexivity | lia].
  - refine (proj2 (proj2 (verify_button_timeout solver3 9%N
                            env_verify_lost [] w0 _ _ _ 81%nat _
                            timeout_msg _ _ _) _));
      vm_compute; first [reflexivity | lia].
Defined.

(** ** The audio-mode control *)

(** X9.  [request_audio_mode] (lines 96-111) never raises a
    [TimeoutException] and never changes the frame context or the files.
    When it raises, the exception is the one of the wait for the control
    or of the click.  In particular a click that times out is handled
    like a control that was not found: the same message is logged, the
    pause is skipped, and the solver goes on. *)
Theorem request_audio_mode_swallows_timeouts env h w r w' t :
  run request_audio_mode env h w = (r, w', t) ->
  w' = w /\
  match r with
  | Ok _ => True
  | Err e =>
      is_TimeoutException e = false /\
      (last t = Some (audio_wait_event (Err e)) \/
       exists el, last t = Some (click_event el (Err e)))
  end /\
  (forall el m,
      t !! 1%nat = Some (click_event el (Err (TimeoutException m))) ->
      r = Ok tt /\
      t = [audio_wait_event (Ok el);
           click_event el (Err (TimeoutException m));
           EPrint msg_audio_not_found]).
Proof.
  unfold run, request_audio_mode, try_except, mbind, M_bind, bind,
    _wait_for_element, wait_until, _js_click, execute_script, call_result,
    print, sleep_uniform, emit, click_event, audio_wait_event.
  destruct (env_wait env h _ _ _ _) as [el|e].
  - destruct (env_execute_script env _ _ el) as [[]|e].
    + intros [= <- <- <-]. by repeat split.
    + destruct (is_TimeoutException e) eqn:He; intros [= <- <- <-].
      * split; [done|]. split; [done|].
        intros ? ? H. simpl in H. by injection H as -> ->.
      * split; [done|]. split; [split; [done|right; by exists el]|].
        intros ? ? H. simpl in H. injection H as -> ->. done.
  - destruct (is_TimeoutException e) eqn:He; intros [= <- <- <-].
    + by repeat split.
    + split; [done|]. split; [split; [done|by left]|]. done.
Qed.

Lemma request_audio_mode_swallows_timeouts_witness :
  exists t,
    run request_audio_mode env_click_timeout [] w_nested
    = (Ok tt, w_nested, t) /\
    t = [audio_wait_event (Ok 5%N);
         click_event 5%N (Err (TimeoutException "script timeout"));
         EPrint msg_audio_not_found].
Proof.
  eexists. split; [vm_compute; reflexivity|].
  refine (proj2 (proj2 (proj2 (request_audio_mode_swallows_timeouts
                                 env_click_timeout [] w_nested (Ok tt)
                                 _ _ _))
                   5%N "script timeout" _));
    vm_compute; reflexivity.
Defined.

(** ** More on the status probe *)



(** ** The pause after the verify click *)

Lemma pipeline_exact_not_verify_delay ev :
  pipeline_exact ev = true -> is_verify_delay ev = false.
Proof.
  destruct ev; try done. simpl.
  intros [H1 H2]%andb_true_iff.
  apply Qeq_bool_iff in H1. apply Qeq_bool_iff in H2.
  destruct (Qeq_bool lo 1.0) eqn:E; [|done].
  apply Qeq_bool_iff in E. rewrite H1 in E. done.
Qed.

Lemma audio_exact_not_verify_delay ev :
  audio_exact ev = true -> is_verify_delay ev = false.
Proof.
  destruct ev; try done. simpl.
  intros [H1 H2]%andb_true_iff.
  apply Qeq_bool_iff in H1.
  destruct (Qeq_bool lo 1.0) eqn:E; [|done].
  apply Qeq_bool_iff in E. rewrite H1 in E. done.
Qed.

Lemma retry_exact_not_verify_delay ev :
  retry_exact ev = true -> is_verify_delay ev = false.
Proof.
  destruct ev; try done. apply pipeline_exact_not_verify_delay.
Qed.

Lemma submit_verify_delay self env h w r w' t :
  run (submit_verify self) env h w = (r, w', t) ->
  count is_verify_delay t =
  match r, _delay_config self with
  | Ok _, StandardDelayConfig => 1%nat
  | _, _ => 0%nat
  end.
Proof.
  unfold submit_verify. intros E.
  apply bind_inv in E as [(a & w1 & t1 & t2 & E1 & E2 & ->)|(e & E1 & ->)];
    apply call_result_inv in E1 as (_ & -> & _); [|done].
  apply bind_inv in E2 as [(b & w2 & t3 & t4 & E2 & E3 & ->)|(e & E2 & ->)];
    apply call_result_inv in E2 as (_ & -> & _); [|done].
  apply bind_inv in E3 as [(c & w3 & t5 & t6 & E3 & E4 & ->)|(e & E3 & _)];
    [|done].
  injection E3 as _ _ <-.
  destruct (_delay_config self); by injection E4 as <- _ <-.
Qed.

(** X11.  The delay policy is used at one place only, after the first
    click on the verify button: a run of [solve_recaptcha_v2_challenge]
    contains exactly one pause of 1.0 to 2.0 seconds if the policy is
    the standard one and the steps before the retry loop all succeed,
    and none otherwise.  In particular the retry loop does not pause
    after clicking the verify button again. *)
Theorem verify_pause_follows_policy self iframe env h w r w' t rp w1 tp :
  run (solve_recaptcha_v2_challenge self iframe) env h w = (r, w', t) ->
  run (solve_prologue self iframe) env h w = (rp, w1, tp) ->
  count is_verify_delay t =
  match rp, _delay_config self with
  | Ok _, StandardDelayConfig => 1%nat
  | _, _ => 0%nat
  end.
Proof.
  intros E Ep.
  assert (count is_verify_delay tp =
          match rp, _delay_config self with
          | Ok _, StandardDelayConfig => 1%nat
          | _, _ => 0%nat
          end) as Hp.
  { clear E. unfold solve_prologue in Ep.
    apply bind_inv in Ep
      as [(a & w2 & t1 & t2 & E1 & E2 & ->)|(e & E1 & ->)].
    2: { by apply switch_to_frame_inv in E1
           as [(? & _)|(? & _ & _ & ->)]. }
    apply switch_to_frame_inv in E1 as [(_ & _ & ->)|(? & ? & _)]; [|done].
    rewrite count_app, count_cons, count_nil. simpl.
    apply bind_inv in E2
      as [(b & w3 & t3 & t4 & E2 & E3 & ->)|(e & E2 & ->)];
      apply request_audio_mode_exact in E2 as [_ F2];
      pose proof (count_none _ _ _ audio_exact_not_verify_delay F2) as C2;
      [|done].
    rewrite count_app, C2. simpl.
    apply bind_inv in E3
      as [(c & w4 & t5 & t6 & E3 & E4 & ->)|(e & E3 & ->)];
      apply solve_audio_challenge_exact in E3 as [_ F3];
      pose proof (count_none _ _ _ pipeline_exact_not_verify_delay F3) as C3;
      [|done].
    rewrite count_app, C3. simpl.
    exact (submit_verify_delay _ _ _ _ _ _ _ E4). }
  destruct rp as [[]|e].
  - rewrite (solve_run_entered _ _ _ _ _ _ _ Ep) in E.
    destruct (run (retry_loop _ _) _ _ _) as [[rl w2] tl] eqn:El.
    apply retry_loop_exact in El as [_ Fl].
    pose proof (count_none _ _ _ retry_exact_not_verify_delay Fl) as Cl.
    destruct rl as [[]|e]; injection E as _ _ <-;
      rewrite ?count_app, ?count_cons, ?count_nil, Hp, Cl; simpl; lia.
  - rewrite (solve_run_not_entered _ _ _ _ _ _ _ _ Ep) in E.
    by injection E as _ _ <-.
Qed.

Lemma verify_pause_follows_policy_witness :
  (exists w' t,
      run (solve_recaptcha_v2_challenge solver3 9%N) env_always_error [] w0
      = (Err (RecaptchaException msg_exhausted), w', t) /\
      count is_verify_delay t = 1%nat) /\
  (exists w' t,
      run (solve_recaptcha_v2_challenge solver_no_delay 9%N)
        env_always_error [] w0
      = (Err (RecaptchaException msg_exhausted), w', t) /\
      count is_verify_delay t = 0%nat).
Proof.
  split; eexists _, _; (split; [vm_compute; reflexivity|]).
  - refine (verify_pause_follows_policy solver3 9%N env_always_error [] w0
              _ _ _ (Ok tt) _ _ _ _);
      vm_compute; reflexivity.
  - refine (verify_pause_follows_policy solver_no_delay 9%N env_always_error
              [] w0 _ _ _ (Ok tt) _ _ _ _);
      vm_compute; reflexivity.
Defined.

(** ** The frame context during a run *)

Lemma inner_not_switch_frame ev :
  inner_event ev = true -> is_switch_frame ev = false.
Proof. by destruct ev. Qed.

Lemma inner_not_switch_default ev :
  inner_event ev = true -> is_switch_default ev = false.
Proof. by destruct ev. Qed.

(** X12.  [solve_recaptcha_v2_challenge] selects a frame exactly once,
    the given iframe, as its first call, and never resets the context
    to the top-level document.  If the iframe could be entered, then
    after every call but the last one the frame context is the caller's
    with the iframe on top: the whole pipeline, the verify steps and the
    retries all run inside the challenge frame. *)
Theorem solve_stays_in_challenge_frame self iframe env h w r w' t :
  run (solve_recaptcha_v2_challenge self iframe) env h w = (r, w', t) ->
  (exists a, head t = Some (ESwitchFrame iframe a)) /\
  count is_switch_frame t = 1%nat /\
  count is_switch_default t = 0%nat /\
  forall k : nat,
    head t = Some (ESwitchFrame iframe (Ok tt)) ->
    (0 < k < length t)%nat ->
    frames (replay (take k t) w) = iframe :: frames w.
Proof.
  intros E. apply solve_inv in E.
  destruct E as [e|e w' t1 [_ F]|w1 t1 [_ F]].
  - split; [by eexists|]. split; [done|]. split; [done|].
    intros k Hh _. by injection Hh.
  - split; [by eexists|].
    split.
    { rewrite count_cons, (count_none _ _ _ inner_not_switch_frame F).
      done. }
    split.
    { rewrite count_cons, (count_none _ _ _ inner_not_switch_default F).
      done. }
    intros [|k] _ Hk; [lia|]. simpl.
    rewrite replay_inner_frames; [done|]. by apply Forall_take.
  - split; [by eexists|].
    split.
    { rewrite count_cons, count_app, count_cons, count_nil,
        (count_none _ _ _ inner_not_switch_frame F).
      done. }
    split.
    { rewrite count_cons, count_app, count_cons, count_nil,
        (count_none _ _ _ inner_not_switch_default F).
      done. }
    intros [|k] _ Hk; [lia|]. simpl in *.
    rewrite length_app in Hk. simpl in Hk.
    rewrite take_app_le by lia.
    rewrite replay_inner_frames; [done|]. by apply Forall_take.
Qed.

Lemma solve_stays_in_challenge_frame_witness :
  exists w' t,
    run (solve_recaptcha_v2_challenge solver3 9%N) env_solved [] w_nested
    = (Ok tt, w', t) /\
    frames (replay (take 30 t) w_nested) = [9%N; 4%N; 3%N].
Proof.
  eexists _, _. split; [vm_compute; reflexivity|].
  refine (proj2 (proj2 (proj2 (solve_stays_in_challenge_frame solver3 9%N
                                 env_solved [] w_nested _ _ _ _)))
            30%nat _ _).
  - vm_compute; reflexivity.
  - vm_compute; reflexivity.
  - vm_compute; lia.
Defined.
